(** * A shallow embedding of [redis-client.py]

    The client is a single Python class: three inline-command helpers
    ([get], [set], [incr]), the generic multi-bulk [send], and the reply
    decoder [_reply] they all share.  The embedding below follows the
    Python text method by method.  The builtins the methods call
    ([str.encode], [bytes.decode], [int], [len], [repr] of bytes, the
    formatting of an f-string field) are modelled first, for CPython 3.8,
    the interpreter named in the script's first line. *)

From Stdlib Require Import String.
From Stdlib Require Import ZArith List Bool Lia.
From Stdlib Require Import Strings.Byte.
Import ListNotations.

Open Scope Z_scope.

(** ** Python values *)

Definition byte := Byte.byte.

(** A [bytes] object. *)
Definition bytes := list byte.

(** A [str] object: a sequence of Unicode code points.  A Python [str]
    may hold lone surrogates (U+D800..U+DFFF); it never holds a value
    outside [0, 0x10FFFF]. *)
Definition str := list Z.

Definition b2z (b : byte) : Z := Z.of_N (Byte.to_N b).

Definition z2b (z : Z) : byte :=
  match Byte.of_N (Z.to_N z) with
  | Some b => b
  | None => Byte.x00
  end.

(** An ASCII literal as [bytes] and as [str]. *)
Definition blit (s : string) : bytes := list_byte_of_string s.
Definition lit (s : string) : str := map b2z (list_byte_of_string s).

Definition CR : byte := Byte.x0d.
Definition LF : byte := Byte.x0a.

Fixpoint bytes_eqb (a b : bytes) : bool :=
  match a, b with
  | [], [] => true
  | x :: a', y :: b' => Byte.eqb x y && bytes_eqb a' b'
  | _, _ => false
  end.

(** The values that flow through the client: arguments given by the
    caller ([main] passes both [str] and [int]) and decoded replies. *)
Inductive object : Type :=
| PyStr (s : str)
| PyInt (z : Z)
| PyBytes (b : bytes).

(** The exceptions the methods can end with.  [Exception msg] is the
    plain base class built by [raise Exception(...)]; the others are
    raised by builtins. *)
Inductive exn : Type :=
| Exception (msg : str)
| TypeError
| ValueError
| UnicodeDecodeError
| UnicodeEncodeError.

(** ** [str.encode()] and [bytes.decode()]: strict UTF-8 *)

Definition is_surrogate (c : Z) : bool := (0xD800 <=? c) && (c <=? 0xDFFF).

Definition encode_char (c : Z) : option bytes :=
  if c <? 0 then None
  else if c <? 0x80 then Some [z2b c]
  else if c <? 0x800 then
    Some [z2b (0xC0 + c / 64); z2b (0x80 + c mod 64)]
  else if c <? 0x10000 then
    if is_surrogate c then None
    else Some [z2b (0xE0 + c / 4096); z2b (0x80 + (c / 64) mod 64);
               z2b (0x80 + c mod 64)]
  else if c <? 0x110000 then
    Some [z2b (0xF0 + c / 262144); z2b (0x80 + (c / 4096) mod 64);
          z2b (0x80 + (c / 64) mod 64); z2b (0x80 + c mod 64)]
  else None.

(** [s.encode()]; [None] stands for [UnicodeEncodeError]. *)
Fixpoint encode (s : str) : option bytes :=
  match s with
  | [] => Some []
  | c :: t =>
      match encode_char c, encode t with
      | Some a, Some b => Some (a ++ b)
      | _, _ => None
      end
  end.

(** A continuation byte, [10xxxxxx]. *)
Definition is_cont (b : byte) : bool := (0x80 <=? b2z b) && (b2z b <? 0xC0).

(** [b.decode()]; [None] stands for [UnicodeDecodeError].  A sequence is
    accepted when its continuation bytes are well formed and the code
    point it denotes is not overlong, not a surrogate and at most
    U+10FFFF. *)
Fixpoint decode (bs : bytes) : option str :=
  match bs with
  | [] => Some []
  | b0 :: t0 =>
      let z0 := b2z b0 in
      if z0 <? 0x80 then option_map (cons z0) (decode t0)
      else if z0 <? 0xC0 then None
      else if z0 <? 0xE0 then
        match t0 with
        | b1 :: t1 =>
            let c := (z0 - 0xC0) * 64 + (b2z b1 - 0x80) in
            if is_cont b1 && (0x80 <=? c)
            then option_map (cons c) (decode t1) else None
        | _ => None
        end
      else if z0 <? 0xF0 then
        match t0 with
        | b1 :: b2 :: t2 =>
            let c := (z0 - 0xE0) * 4096 + (b2z b1 - 0x80) * 64
                     + (b2z b2 - 0x80) in
            if is_cont b1 && is_cont b2 && (0x800 <=? c)
               && negb (is_surrogate c)
            then option_map (cons c) (decode t2) else None
        | _ => None
        end
      else if z0 <? 0xF8 then
        match t0 with
        | b1 :: b2 :: b3 :: t3 =>
            let c := (z0 - 0xF0) * 262144 + (b2z b1 - 0x80) * 4096
                     + (b2z b2 - 0x80) * 64 + (b2z b3 - 0x80) in
            if is_cont b1 && is_cont b2 && is_cont b3
               && (0x10000 <=? c) && (c <? 0x110000)
            then option_map (cons c) (decode t3) else None
        | _ => None
        end
      else None
  end.

(** ** [str(n)] for an [int]: the decimal text *)

Fixpoint digits_of (fuel : nat) (n : Z) (acc : str) : str :=
  match fuel with
  | O => acc
  | S f =>
      let acc' := (48 + n mod 10) :: acc in
      if n <? 10 then acc' else digits_of f (n / 10) acc'
  end.

(** A non-negative [n] has at most [log2 n + 1] decimal digits. *)
Definition decimal (n : Z) : str :=
  digits_of (S (Z.to_nat (Z.log2 n))) n [].

Definition int_str (z : Z) : str :=
  if z <? 0 then 45 :: decimal (- z) else decimal z.

(** ** [int(x)] for a [str] or a [bytes] argument *)

(** C's [Py_ISSPACE]: tab, LF, VT, FF, CR and space. *)
Definition Py_ISSPACE (c : Z) : bool :=
  ((9 <=? c) && (c <=? 13)) || (c =? 32).

Definition is_digit (c : Z) : bool := (48 <=? c) && (c <=? 57).

Fixpoint skip_spaces (s : list Z) : list Z :=
  match s with
  | c :: t => if Py_ISSPACE c then skip_spaces t else s
  | [] => []
  end.

(** The digit scan of [PyLong_FromString] in base 10: digits, with single
    underscores allowed between them.  [prev_us] says the previous
    character was an underscore, [seen] that a digit was read. *)
Fixpoint scan_digits (prev_us seen : bool) (acc : Z) (s : list Z)
  : option (Z * list Z) :=
  let stop := if prev_us then None
              else if seen then Some (acc, s) else None in
  match s with
  | c :: t =>
      if is_digit c then scan_digits false true (acc * 10 + (c - 48)) t
      else if c =? 95 then
        if prev_us then None else scan_digits true seen acc t
      else stop
  | [] => stop
  end.

(** [PyLong_FromString(s, 10)] followed by the caller's check that the
    whole text was read; [None] stands for [ValueError]. *)
Definition PyLong_FromString (s : list Z) : option Z :=
  let s1 := skip_spaces s in
  let '(sign, s2) :=
    match s1 with
    | c :: t => if c =? 43 then (1, t)
                else if c =? 45 then (-1, t) else (1, s1)
    | [] => (1, s1)
    end in
  if match s2 with c :: _ => c =? 95 | [] => false end then None
  else
    match scan_digits false false 0 s2 with
    | Some (v, rest) =>
        match skip_spaces rest with
        | [] => Some (sign * v)
        | _ => None
        end
    | None => None
    end.

(** [int(b)] for [bytes]: the bytes are read as they are. *)
Definition int_of_bytes (b : bytes) : option Z :=
  PyLong_FromString (map b2z b).

(** [str.isspace] beyond ASCII (the white space of the Unicode database). *)
Definition Py_UNICODE_ISSPACE (c : Z) : bool :=
  (c =? 0x85) || (c =? 0xA0) || (c =? 0x1680)
  || ((0x2000 <=? c) && (c <=? 0x200A))
  || (c =? 0x2028) || (c =? 0x2029) || (c =? 0x202F) || (c =? 0x205F)
  || (c =? 0x3000).

(** First code point of every run of ten decimal digits (category Nd)
    beyond ASCII in Unicode 12.1, the database of CPython 3.8. *)
Definition decimal_blocks : list Z :=
  [0x660; 0x6f0; 0x7c0; 0x966; 0x9e6; 0xa66; 0xae6; 0xb66; 0xbe6; 0xc66;
   0xce6; 0xd66; 0xde6; 0xe50; 0xed0; 0xf20; 0x1040; 0x1090; 0x17e0;
   0x1810; 0x1946; 0x19d0; 0x1a80; 0x1a90; 0x1b50; 0x1bb0; 0x1c40; 0x1c50;
   0xa620; 0xa8d0; 0xa900; 0xa9d0; 0xa9f0; 0xaa50; 0xabf0; 0xff10;
   0x104a0; 0x10d30; 0x11066; 0x110f0; 0x11136; 0x111d0; 0x112f0; 0x11450;
   0x114d0; 0x11650; 0x116c0; 0x11730; 0x118e0; 0x11c50; 0x11d50; 0x11da0;
   0x16a60; 0x16b50; 0x1d7ce; 0x1d7d8; 0x1d7e2; 0x1d7ec; 0x1d7f6; 0x1e140;
   0x1e2f0; 0x1e950].

Definition Py_UNICODE_TODECIMAL (c : Z) : option Z :=
  match find (fun s => (s <=? c) && (c <? s + 10)) decimal_blocks with
  | Some s => Some (c - s)
  | None => None
  end.

(** [_PyUnicode_TransformDecimalAndSpaceToASCII], one character: ASCII is
    kept, other white space becomes a space, other decimal digits become
    ASCII digits, anything else makes [int] fail. *)
Definition to_ascii_digit (c : Z) : option Z :=
  if c <? 127 then Some c
  else if Py_UNICODE_ISSPACE c then Some 32
  else option_map (Z.add 48) (Py_UNICODE_TODECIMAL c).

Fixpoint to_ascii_digits (s : str) : option (list Z) :=
  match s with
  | [] => Some []
  | c :: t =>
      match to_ascii_digit c, to_ascii_digits t with
      | Some a, Some r => Some (a :: r)
      | _, _ => None
      end
  end.

(** [int(s)] for [str]. *)
Definition int_of_str (s : str) : option Z :=
  match to_ascii_digits s with
  | Some a => PyLong_FromString a
  | None => None
  end.

(** ** [repr] of [bytes], as an f-string field shows a [bytes] value *)

Definition hex_digit (n : Z) : Z := if n <? 10 then 48 + n else 87 + n.

Definition repr_byte (quote : Z) (b : byte) : str :=
  let c := b2z b in
  if (c =? quote) || (c =? 92) then [92; c]
  else if c =? 9 then [92; 116]
  else if c =? 10 then [92; 110]
  else if c =? 13 then [92; 114]
  else if (c <? 32) || (127 <=? c)
       then [92; 120; hex_digit (c / 16); hex_digit (c mod 16)]
  else [c].

Definition bytes_repr (bs : bytes) : str :=
  let has q := existsb (fun b => b2z b =? q) bs in
  let quote := if has 39 && negb (has 34) then 34 else 39 in
  98 :: quote :: flat_map (repr_byte quote) bs ++ [quote].

(** [format(x)] with an empty format spec, what an f-string field [{x}]
    inserts. *)
Definition format (x : object) : str :=
  match x with
  | PyStr s => s
  | PyInt z => int_str z
  | PyBytes b => bytes_repr b
  end.

(** [len(x)]; an [int] has no length ([TypeError]). *)
Definition len (x : object) : option Z :=
  match x with
  | PyStr s => Some (Z.of_nat (length s))
  | PyInt _ => None
  | PyBytes b => Some (Z.of_nat (length b))
  end.

(** Python's [x[:-k]]. *)
Definition drop_last {A : Type} (k : nat) (l : list A) : list A :=
  firstn (length l - k) l.

(** ** The connection: [asyncio]'s stream reader and writer *)

(** What the server sends, in the fragments in which it reaches the
    reader's buffer; the end of the list is the end of the stream.
    [read n] hands out at most [n] bytes of the fragment at hand and
    never waits for more once one byte is there, so every sequence of
    short reads a real transport can produce is the behaviour of some
    fragment list. *)
Definition StreamReader := list bytes.

Definition push_back (rest : bytes) (later : StreamReader) : StreamReader :=
  match rest with
  | [] => later
  | _ => rest :: later
  end.

(** [StreamReader.read(n)]: up to [n] bytes as soon as one is available,
    the empty [bytes] at the end of the stream (and for [n = 0]). *)
Fixpoint read (n : nat) (rd : StreamReader) {struct rd}
  : bytes * StreamReader :=
  match rd with
  | [] => ([], [])
  | [] :: later => read n later
  | chunk :: later =>
      match n with
      | O => ([], rd)
      | _ => (firstn n chunk, push_back (skipn n chunk) later)
      end
  end.

(** The writer: bytes handed to [write] wait in [pending] until [drain]
    moves them to [sent], the bytes on the wire. *)
Record StreamWriter : Type := { pending : bytes; sent : bytes }.

Definition write (data : bytes) (wr : StreamWriter) : StreamWriter :=
  {| pending := pending wr ++ data; sent := sent wr |}.

Definition drain (wr : StreamWriter) : StreamWriter :=
  {| pending := []; sent := sent wr ++ pending wr |}.

(** [self]: the two streams [connect] stores. *)
Record Client : Type := { r : StreamReader; w : StreamWriter }.

(** [connect]: [incoming] is what the server at (host, port) will send. *)
Definition connect (incoming : StreamReader) : Client :=
  {| r := incoming; w := {| pending := []; sent := [] |} |}.

(** ** Coroutines over [self] *)

(** How a coroutine ends: with a value, with an exception, or not within
    the given number of loop iterations. *)
Inductive result (A : Type) : Type :=
| Return (a : A)
| Raise (e : exn)
| OutOfFuel.

Arguments Return {A} a.
Arguments Raise {A} e.
Arguments OutOfFuel {A}.

Definition M (A : Type) : Type := Client -> result A * Client.

Definition ret {A : Type} (a : A) : M A := fun self => (Return a, self).

Definition raise {A : Type} (e : exn) : M A := fun self => (Raise e, self).

Definition out_of_fuel {A : Type} : M A := fun self => (OutOfFuel, self).

Definition bind {A B : Type} (m : M A) (k : A -> M B) : M B :=
  fun self =>
    match m self with
    | (Return a, self') => k a self'
    | (Raise e, self') => (Raise e, self')
    | (OutOfFuel, self') => (OutOfFuel, self')
    end.

Notation "x <- m ;; k" := (bind m (fun x => k))
  (at level 61, m at next level, right associativity).
Notation "m ;;; k" := (bind m (fun _ => k))
  (at level 61, right associativity).

(** A builtin that raises [e] where the model says [None]. *)
Definition or_raise {A : Type} (e : exn) (o : option A) : M A :=
  match o with
  | Some a => ret a
  | None => raise e
  end.

(** [self] with its reader advanced to [rd]. *)
Definition with_reader (self : Client) (rd : StreamReader) : Client :=
  {| r := rd; w := w self |}.

Definition reader_read (n : nat) : M bytes :=
  fun self =>
    let '(data, rd) := read n (r self) in
    (Return data, with_reader self rd).

Definition writer_write (data : bytes) : M unit :=
  fun self => (Return tt, {| r := r self; w := write data (w self) |}).

Definition writer_drain : M unit :=
  fun self => (Return tt, {| r := r self; w := drain (w self) |}).

(** ** The reply decoder *)

Definition crlf : str := [13; 10].

(** The loop that stands four times in [_reply]:
[[
    while ch != b"\n":
        ch = await self.r.read(1)
        result += ch
]]
    entered with [ch] empty. *)
Fixpoint read_line (fuel : nat) (result : bytes) : M bytes :=
  match fuel with
  | O => out_of_fuel
  | S fuel' =>
      ch <- reader_read 1 ;;
      let result := result ++ ch in
      if bytes_eqb ch [LF] then ret result else read_line fuel' result
  end.

(** The payload loop of a bulk string:
[[
    while len(result) < data_length:
        result += await self.r.read(data_length - len(result))
]] *)
Fixpoint read_exactly (fuel : nat) (data_length : Z) (result : bytes)
  : M bytes :=
  if Z.of_nat (length result) <? data_length then
    match fuel with
    | O => out_of_fuel
    | S fuel' =>
        chunk <- reader_read (Z.to_nat (data_length - Z.of_nat (length result))) ;;
        read_exactly fuel' data_length (result ++ chunk)
    end
  else ret result.

(** [_reply]; [fuel] bounds the iterations of each loop. *)
Definition _reply (fuel : nat) : M object :=
  tag <- reader_read 1 ;;
  (* Integers *)
  if bytes_eqb tag (blit ":") then
    result <- read_line fuel [] ;;
    text <- or_raise UnicodeDecodeError (decode (drop_last 1 result)) ;;
    n <- or_raise ValueError (int_of_str text) ;;
    ret (PyInt n)
  (* Errors *)
  else if bytes_eqb tag (blit "-") then
    result <- read_line fuel [] ;;
    text <- or_raise UnicodeDecodeError (decode (drop_last 1 result)) ;;
    raise (Exception text)
  (* Bulk Strings *)
  else if bytes_eqb tag (blit "$") then
    length <- read_line fuel [] ;;
    n <- or_raise ValueError (int_of_bytes (drop_last 1 length)) ;;
    let data_length := n + 2 in
    result <- read_exactly fuel data_length [] ;;
    text <- or_raise UnicodeDecodeError (decode (drop_last 2 result)) ;;
    ret (PyStr text)
  (* Simple Strings *)
  else if bytes_eqb tag (blit "+") then
    result <- read_line fuel [] ;;
    text <- or_raise UnicodeDecodeError (decode (drop_last 1 result)) ;;
    ret (PyStr text)
  (* Fallthrough to Exception *)
  else
    msg <- reader_read 100 ;;
    text <- or_raise UnicodeDecodeError (decode msg) ;;
    raise (Exception (lit "Unkown tag: " ++ bytes_repr tag
                      ++ lit ", msg: " ++ text)).

(** ** The commands *)

(** Encode the text, write it, drain, read one reply: the body shared by
    every command once its request text is built. *)
Definition request (fuel : nat) (text : str) : M object :=
  data <- or_raise UnicodeEncodeError (encode text) ;;
  writer_write data ;;;
  writer_drain ;;;
  _reply fuel.

Definition get (fuel : nat) (key : object) : M object :=
  request fuel (lit "GET " ++ format key ++ crlf).

Definition set (fuel : nat) (key val : object) : M object :=
  request fuel (lit "SET " ++ format key ++ lit " " ++ format val ++ crlf).

Definition incr (fuel : nat) (key : object) : M object :=
  request fuel (lit "INCR " ++ format key ++ crlf).

(** One element of the list comprehension of [send]:
    [f"${len(arg)}\r\n{arg}\r\n"]; [None] is the [TypeError] of [len]. *)
Definition bulk_arg (arg : object) : option str :=
  match len arg with
  | Some n => Some (lit "$" ++ int_str n ++ crlf ++ format arg ++ crlf)
  | None => None
  end.

(** The elements of the comprehension over [args], joined. *)
Fixpoint resp_args (args : list object) : option str :=
  match args with
  | [] => Some []
  | arg :: rest =>
      match bulk_arg arg, resp_args rest with
      | Some a, Some b => Some (a ++ b)
      | _, _ => None
      end
  end.

Definition send (fuel : nat) (args : list object) : M object :=
  joined <- or_raise TypeError (resp_args args) ;;
  request fuel (lit "*" ++ int_str (Z.of_nat (length args)) ++ crlf ++ joined).

(** ** The script *)

(** [print(x)]: [str(x)] and a newline, appended to standard output. *)
Definition print (x : object) (stdout : str) : str :=
  stdout ++ format x ++ [10].

(** A run of the script so far: how it stands, the client, and what
    standard output holds. *)
Definition Run : Type := result unit * Client * str.

(** The statement [print(await command)]; it is not reached once an
    earlier statement has raised. *)
Definition print_await (command : M object) (run : Run) : Run :=
  match run with
  | (Return _, client, stdout) =>
      match command client with
      | (Return v, client') => (Return tt, client', print v stdout)
      | (Raise e, client') => (Raise e, client', stdout)
      | (OutOfFuel, client') => (OutOfFuel, client', stdout)
      end
  | _ => run
  end.

(** [main]; [server] is what the server at localhost:6379 sends. *)
Definition main (fuel : nat) (server : StreamReader) : Run :=
  let stdout := print (PyStr (lit "Asyncio Python Redis Client")) [] in
  let client := connect server in
  let run : Run := (Return tt, client, stdout) in
  let run := print_await (set fuel (PyStr (lit "first")) (PyInt 1)) run in
  let run := print_await
               (send fuel [PyStr (lit "set"); PyStr (lit "third");
                           PyStr (lit "way after first")]) run in
  let run := print_await (get fuel (PyStr (lit "first"))) run in
  print_await (incr fuel (PyStr (lit "first"))) run.

(** ** Vocabulary of the statements *)

(** The four requests of [main], as they follow each other on the wire. *)
Definition main_requests : list bytes :=
  [blit "SET first 1" ++ [CR; LF];
   blit "*3" ++ [CR; LF] ++ blit "$3" ++ [CR; LF] ++ blit "set" ++ [CR; LF]
   ++ blit "$5" ++ [CR; LF] ++ blit "third" ++ [CR; LF]
   ++ blit "$15" ++ [CR; LF] ++ blit "way after first" ++ [CR; LF];
   blit "GET first" ++ [CR; LF];
   blit "INCR first" ++ [CR; LF]].

(** The bytes of an ASCII text, one per character. *)
Definition ascii (s : str) : bytes := map z2b s.

(** One argument of a multi-bulk request announced with the length [n]. *)
Definition bulk_item (n : Z) (arg : bytes) : bytes :=
  blit "$" ++ ascii (int_str n) ++ [CR; LF] ++ arg ++ [CR; LF].

(** The text of a line, or the exception its decoding raises. *)
Definition decoded (line : bytes) (k : str -> result object)
  : result object :=
  match decode line with
  | Some text => k text
  | None => Raise UnicodeDecodeError
  end.

Definition starts_with_digit (s : list Z) : Prop :=
  match s with
  | d :: _ => 48 <= d <= 57
  | [] => False
  end.

(** [type(e).__name__]. *)
Definition type_name (e : exn) : string :=
  match e with
  | Exception _ => "Exception"
  | TypeError => "TypeError"
  | ValueError => "ValueError"
  | UnicodeDecodeError => "UnicodeDecodeError"
  | UnicodeEncodeError => "UnicodeEncodeError"
  end.

(** The bytes of one reply on the wire, as far as the decoder tells
    replies apart: a tag among [: - +] and a line up to its LF, or a
    bulk string with its length line and the [n + 2] bytes announced. *)
Inductive resp_frame : bytes -> Prop :=
| frame_line (tag : byte) (line : bytes) :
    In tag (blit ":-+") -> ~ In LF line ->
    resp_frame (tag :: line ++ [LF])
| frame_bulk (n : Z) (body : bytes) :
    0 <= n -> Z.of_nat (length body) = n + 2 ->
    resp_frame (blit "$" ++ ascii (int_str n) ++ [CR; LF] ++ body).

(** The fragment at hand: the first fragment of the reader that holds
    a byte, which is all that one [read] can draw from. *)
Fixpoint at_hand (rd : StreamReader) : bytes :=
  match rd with
  | [] => []
  | [] :: later => at_hand later
  | chunk :: _ => chunk
  end.

(** The multi-bulk request as the specification words it, over the
    arguments' bytes: [*<argc>\r\n], then [$<byte-length>\r\n<bytes>\r\n]
    for each argument. *)
Definition multi_bulk (args : list bytes) : bytes :=
  blit "*" ++ ascii (int_str (Z.of_nat (length args))) ++ [CR; LF]
  ++ flat_map (fun arg => blit "$" ++ ascii (int_str (Z.of_nat (length arg)))
                          ++ [CR; LF] ++ arg ++ [CR; LF]) args.

(** A coroutine that leaves the writer alone and does not look at it. *)
Definition reader_only {A : Type} (m : M A) : Prop :=
  forall (self : Client) (wr : StreamWriter),
    m {| r := r self; w := wr |}
    = (fst (m self), {| r := r (snd (m self)); w := wr |}).

(** * Properties *)

Arguments b2z : simpl never.
Arguments z2b : simpl never.

(** ** Bytes and numbers *)

Lemma b2z_range (b : byte) : 0 <= b2z b < 256.
Proof.
  unfold b2z. pose proof (Byte.to_N_bounded b). lia.
Qed.

Lemma z2b_b2z (b : byte) : z2b (b2z b) = b.
Proof.
  unfold z2b, b2z. rewrite N2Z.id, Byte.of_to_N. reflexivity.
Qed.

Lemma b2z_z2b (z : Z) : 0 <= z < 256 -> b2z (z2b z) = z.
Proof.
  intros Hz. unfold z2b, b2z.
  destruct (Byte.of_N (Z.to_N z)) as [b|] eqn:E.
  - apply Byte.to_of_N in E. rewrite E. lia.
  - apply Byte.of_N_None_iff in E. lia.
Qed.

Lemma b2z_inj (a b : byte) : b2z a = b2z b -> a = b.
Proof.
  intros H. rewrite <- (z2b_b2z a), <- (z2b_b2z b), H. reflexivity.
Qed.

Lemma bytes_eqb_eq (a b : bytes) : bytes_eqb a b = true <-> a = b.
Proof.
  revert b. induction a as [|x a IH]; intros [|y b]; simpl;
    try (split; (discriminate || reflexivity)).
  rewrite andb_true_iff, IH. split.
  - intros [Hxy ->]. apply Byte.byte_dec_bl in Hxy. now subst.
  - intros [= -> ->]. split; [now apply Byte.byte_dec_lb | reflexivity].
Qed.

Lemma bytes_eqb_refl (a : bytes) : bytes_eqb a a = true.
Proof. now apply bytes_eqb_eq. Qed.

Lemma bytes_eqb_neq (a b : bytes) : a <> b -> bytes_eqb a b = false.
Proof.
  intros H. destruct (bytes_eqb a b) eqn:E; [|reflexivity].
  apply bytes_eqb_eq in E. contradiction.
Qed.

Lemma drop_last_app {A : Type} (l tl : list A) :
  drop_last (length tl) (l ++ tl) = l.
Proof.
  unfold drop_last. rewrite length_app.
  replace (length l + length tl - length tl)%nat with (length l + 0)%nat by lia.
  rewrite firstn_app_2. simpl. now rewrite app_nil_r.
Qed.

(** ** The stream reader *)

Section Reader.

Lemma concat_push_back (rest : bytes) (later : StreamReader) :
  concat (push_back rest later) = rest ++ concat later.
Proof. destruct rest; reflexivity. Qed.

(** What one [read] gives: a prefix of what is still to come, at most
    [n] bytes long, and empty only at the end of the stream. *)
Lemma read_prefix (n : nat) (rd : StreamReader) :
  fst (read n rd) ++ concat (snd (read n rd)) = concat rd
  /\ (length (fst (read n rd)) <= n)%nat
  /\ (0 < n -> concat rd <> [] -> fst (read n rd) <> [])%nat.
Proof.
  induction rd as [|chunk later IH]; simpl.
  - repeat split; [lia | congruence].
  - destruct chunk as [|b chunk]; [exact IH|].
    destruct n as [|n]; simpl.
    + repeat split; [lia | lia].
    + rewrite concat_push_back.
      repeat split.
      * f_equal. rewrite app_assoc. now rewrite firstn_skipn.
      * pose proof (firstn_le_length n chunk). lia.
      * discriminate.
Qed.

Lemma read_one (rd : StreamReader) (b : byte) (tl : bytes) :
  concat rd = b :: tl ->
  exists rd', read 1 rd = ([b], rd') /\ concat rd' = tl.
Proof.
  intros H. destruct (read_prefix 1 rd) as (Happ & Hlen & Hne).
  destruct (read 1 rd) as [data rd'] eqn:E; simpl in *.
  exists rd'. rewrite H in Happ, Hne.
  destruct data as [|x [|y data]]; simpl in *.
  - exfalso. apply Hne; [lia | discriminate | reflexivity].
  - injection Happ as Hx Htl. subst x. split; [reflexivity | exact Htl].
  - lia.
Qed.

Lemma read_eof (n : nat) (rd : StreamReader) :
  concat rd = [] ->
  exists rd', read n rd = ([], rd') /\ concat rd' = [].
Proof.
  intros H. destruct (read_prefix n rd) as (Happ & _ & _).
  destruct (read n rd) as [data rd'] eqn:E; simpl in *.
  rewrite H in Happ. apply app_eq_nil in Happ as [Hd Hr].
  exists rd'. subst data. split; [reflexivity | exact Hr].
Qed.

(** A read of up to [length wanted] bytes from a stream that starts
    with [wanted ++ rest] takes a non-empty prefix of [wanted]. *)
Lemma read_some (rd : StreamReader) (wanted rest : bytes) :
  wanted <> [] ->
  concat rd = wanted ++ rest ->
  exists data more rd',
    read (length wanted) rd = (data, rd')
    /\ wanted = data ++ more /\ data <> []
    /\ concat rd' = more ++ rest.
Proof.
  intros Hne H.
  destruct (read_prefix (length wanted) rd) as (Happ & Hlen & Hsome).
  destruct (read (length wanted) rd) as [data rd'] eqn:E; simpl in *.
  exists data, (skipn (length data) wanted), rd'.
  assert (Hdata : data = firstn (length data) wanted).
  { rewrite H in Happ.
    assert (Hf : firstn (length data) (data ++ concat rd')
                 = firstn (length data) (wanted ++ rest)) by now rewrite Happ.
    rewrite firstn_app, Nat.sub_diag, firstn_all in Hf. simpl in Hf.
    rewrite app_nil_r in Hf. rewrite Hf at 1.
    rewrite firstn_app.
    replace (length data - length wanted)%nat with 0%nat by lia.
    simpl. now rewrite app_nil_r. }
  repeat split.
  - rewrite Hdata at 1. now rewrite firstn_skipn.
  - apply Hsome; [destruct wanted; simpl; [congruence | lia]|].
    rewrite H. destruct wanted; [congruence | discriminate].
  - rewrite H in Happ.
    assert (Hs : skipn (length data) (data ++ concat rd')
                 = skipn (length data) (wanted ++ rest)) by now rewrite Happ.
    rewrite skipn_app, Nat.sub_diag, skipn_all in Hs. simpl in Hs.
    rewrite Hs, skipn_app.
    replace (length data - length wanted)%nat with 0%nat by lia.
    reflexivity.
Qed.

(** One [read] takes the first [n] bytes of the fragment at hand, all
    of it when it holds no more than [n], and nothing else. *)
Lemma read_at_hand (n : nat) (rd : StreamReader) :
  (0 < n)%nat ->
  fst (read n rd) = firstn n (at_hand rd)
  /\ concat (snd (read n rd))
     = skipn (length (firstn n (at_hand rd))) (concat rd).
Proof.
  intros Hn. induction rd as [|chunk later IH]; cbn [read at_hand].
  - now rewrite firstn_nil.
  - destruct chunk as [|b chunk]; [exact IH|].
    destruct n as [|n]; [lia|]. cbn [fst snd].
    split; [reflexivity|].
    rewrite concat_push_back. cbn [concat].
    rewrite skipn_app, length_firstn.
    destruct (Nat.le_gt_cases (S n) (length (b :: chunk))) as [Hle|Hgt].
    + rewrite Nat.min_l by exact Hle.
      replace (S n - length (b :: chunk))%nat with 0%nat by lia.
      reflexivity.
    + rewrite Nat.min_r by lia. rewrite Nat.sub_diag.
      rewrite !skipn_all2 by lia. reflexivity.
Qed.

End Reader.

(** ** The two read loops *)

Section Loops.

Lemma reader_read_eq (n : nat) (self : Client) (data : bytes)
      (rd' : StreamReader) :
  read n (r self) = (data, rd') ->
  reader_read n self = (Return data, with_reader self rd').
Proof. intros H. unfold reader_read. now rewrite H. Qed.

(** A line that is there is read to its LF and not beyond, however the
    stream is cut into fragments. *)
Lemma read_line_ok (line : bytes) :
  forall (acc : bytes) (self : Client) (rest : bytes) (fuel : nat),
    ~ In LF line ->
    concat (r self) = line ++ LF :: rest ->
    (length line < fuel)%nat ->
    exists rd',
      read_line fuel acc self
      = (Return (acc ++ line ++ [LF]), with_reader self rd')
      /\ concat rd' = rest.
Proof.
  induction line as [|b line IH]; intros acc self rest fuel Hnl Hcat Hfuel;
    (destruct fuel as [|fuel]; [simpl in Hfuel; lia|]);
    destruct (read_one _ _ _ Hcat) as (rd' & Hread & Hrd');
    cbn [read_line]; unfold bind;
    rewrite (reader_read_eq _ _ _ _ Hread).
  - rewrite bytes_eqb_refl. exists rd'. split; [reflexivity | assumption].
  - rewrite bytes_eqb_neq.
    2:{ intros [= Hb]. apply Hnl. now left. }
    destruct (IH (acc ++ [b]) (with_reader self rd') rest fuel)
      as (rd'' & Hloop & Hrest).
    + intros Hin. apply Hnl. now right.
    + exact Hrd'.
    + simpl in Hfuel. lia.
    + exists rd''. split; [|assumption].
      rewrite Hloop. rewrite <- app_assoc. reflexivity.
Qed.

(** When the stream ends before an LF, the loop keeps reading nothing:
    no amount of fuel ends it. *)
Lemma read_line_eof (fuel : nat) :
  forall (acc : bytes) (self : Client),
    ~ In LF (concat (r self)) ->
    fst (read_line fuel acc self) = OutOfFuel.
Proof.
  induction fuel as [|fuel IH]; intros acc self Hnl; [reflexivity|].
  cbn [read_line]. unfold bind.
  destruct (concat (r self)) as [|b tl] eqn:Hcat.
  - destruct (read_eof 1 _ Hcat) as (rd' & Hread & Hrd').
    rewrite (reader_read_eq _ _ _ _ Hread).
    rewrite bytes_eqb_neq by discriminate.
    apply IH. simpl. now rewrite Hrd'.
  - destruct (read_one _ _ _ Hcat) as (rd' & Hread & Hrd').
    rewrite (reader_read_eq _ _ _ _ Hread).
    rewrite bytes_eqb_neq.
    2:{ intros [= Hb]. apply Hnl. now left. }
    apply IH. simpl. rewrite Hrd'. intros Hin. apply Hnl. now right.
Qed.

(** With too little fuel for the line, the loop has not ended yet. *)
Lemma read_line_low_fuel (line : bytes) :
  forall (acc : bytes) (self : Client) (rest : bytes) (fuel : nat),
    ~ In LF line ->
    concat (r self) = line ++ LF :: rest ->
    (fuel <= length line)%nat ->
    fst (read_line fuel acc self) = OutOfFuel.
Proof.
  induction line as [|b line IH]; intros acc self rest fuel Hnl Hcat Hfuel;
    (destruct fuel as [|fuel]; [reflexivity|]); [simpl in Hfuel; lia|].
  destruct (read_one _ _ _ Hcat) as (rd' & Hread & Hrd').
  cbn [read_line]. unfold bind. rewrite (reader_read_eq _ _ _ _ Hread).
  rewrite bytes_eqb_neq.
  2:{ intros [= Hb]. apply Hnl. now left. }
  apply (IH (acc ++ [b]) (with_reader self rd') rest fuel).
  - intros Hin. apply Hnl. now right.
  - exact Hrd'.
  - simpl in Hfuel. lia.
Qed.

(** The payload loop gathers exactly the bytes that are missing, in as
    many short reads as the fragments impose. *)
Lemma read_exactly_ok (fuel : nat) :
  forall (data_length : Z) (acc : bytes) (self : Client)
         (payload rest : bytes),
    Z.of_nat (length acc) + Z.of_nat (length payload) = data_length ->
    concat (r self) = payload ++ rest ->
    (length payload <= fuel)%nat ->
    exists rd',
      read_exactly fuel data_length acc self
      = (Return (acc ++ payload), with_reader self rd')
      /\ concat rd' = rest.
Proof.
  induction fuel as [|fuel IH]; intros n acc self payload rest Hn Hcat Hfuel.
  - destruct payload; [|simpl in Hfuel; lia].
    simpl in *. replace (Z.of_nat (length acc) <? n) with false
      by (symmetry; apply Z.ltb_ge; lia).
    exists (r self). rewrite app_nil_r. destruct self; split; [reflexivity | assumption].
  - destruct payload as [|p payload].
    + simpl in *. replace (Z.of_nat (length acc) <? n) with false
        by (symmetry; apply Z.ltb_ge; lia).
      exists (r self). rewrite app_nil_r. destruct self; split; [reflexivity | assumption].
    + cbn [read_exactly].
      replace (Z.of_nat (length acc) <? n) with true
        by (symmetry; apply Z.ltb_lt; simpl in Hn; lia).
      replace (Z.to_nat (n - Z.of_nat (length acc)))
        with (length (p :: payload)) by lia.
      destruct (read_some (r self) (p :: payload) rest) as
        (data & more & rd' & Hread & Hsplit & Hdata & Hrd');
        [discriminate | assumption |].
      unfold bind. rewrite (reader_read_eq _ _ _ _ Hread).
      assert (Hlen : length (p :: payload) = (length data + length more)%nat)
        by (rewrite Hsplit; apply length_app).
      destruct (IH n (acc ++ data) (with_reader self rd') more rest)
        as (rd'' & Hloop & Hrest).
      * rewrite length_app. lia.
      * exact Hrd'.
      * destruct data; [congruence|]. simpl in *. lia.
      * exists rd''. split; [|assumption].
        rewrite Hloop, Hsplit, app_assoc. reflexivity.
Qed.

(** A length that is already reached (a negative one, for instance)
    reads nothing. *)
Lemma read_exactly_done (fuel : nat) (data_length : Z) (acc : bytes)
      (self : Client) :
  data_length <= Z.of_nat (length acc) ->
  read_exactly fuel data_length acc self = (Return acc, self).
Proof.
  intros H. destruct fuel; simpl;
    replace (Z.of_nat (length acc) <? data_length) with false
      by (symmetry; apply Z.ltb_ge; lia); reflexivity.
Qed.

(** When the stream ends before the count is reached, the payload loop
    keeps asking: no amount of fuel ends it. *)
Lemma read_exactly_eof (fuel : nat) :
  forall (data_length : Z) (acc : bytes) (self : Client),
    Z.of_nat (length acc) + Z.of_nat (length (concat (r self)))
    < data_length ->
    fst (read_exactly fuel data_length acc self) = OutOfFuel.
Proof.
  induction fuel as [|fuel IH]; intros n acc self Hshort.
  - simpl. replace (Z.of_nat (length acc) <? n) with true
      by (symmetry; apply Z.ltb_lt; lia). reflexivity.
  - cbn [read_exactly].
    replace (Z.of_nat (length acc) <? n) with true
      by (symmetry; apply Z.ltb_lt; lia).
    unfold bind.
    destruct (read_prefix (Z.to_nat (n - Z.of_nat (length acc))) (r self))
      as (Happ & _ & _).
    destruct (read _ (r self)) as [data rd'] eqn:Hread.
    rewrite (reader_read_eq _ _ _ _ Hread).
    apply IH. simpl in *. rewrite <- Happ in Hshort.
    rewrite !length_app in *. lia.
Qed.

End Loops.

(** ** UTF-8 *)

Section Utf8.

(** Decide every comparison left in the goal, with the quotients and
    remainders by powers of two turned into their equations. *)
Local Ltac euclid := Z.to_euclidean_division_equations; lia.

Local Ltac decide_tests :=
  repeat match goal with
    | |- context [?a <? ?b] =>
        destruct (Z.ltb_spec a b); [| try (exfalso; euclid)];
        try (exfalso; euclid)
    | |- context [?a <=? ?b] =>
        destruct (Z.leb_spec a b); [| try (exfalso; euclid)];
        try (exfalso; euclid)
    end.

Local Lemma Some_eq {A : Type} (x y : A) : Some x = Some y -> y = x.
Proof. now intros [= ->]. Qed.

(** The cases of [encode_char], each with its bounds on [c]. *)
Local Ltac encode_cases a :=
  unfold encode_char, is_surrogate;
  repeat match goal with
    | |- context [?x <? ?y] => destruct (Z.ltb_spec x y)
    | |- context [?x <=? ?y] => destruct (Z.leb_spec x y)
    end; cbn [andb]; try discriminate;
  let Ha := fresh "Ha" in intros Ha; apply Some_eq in Ha; subst a.

Lemma encode_char_decode (c : Z) (a tl : bytes) :
  encode_char c = Some a ->
  decode (a ++ tl) = option_map (cons c) (decode tl).
Proof.
  encode_cases a; cbn [app decode]; unfold is_cont, is_surrogate;
    rewrite !b2z_z2b by euclid; decide_tests; cbn [andb negb];
    f_equal.
  all: try (destruct (decode tl); cbn [option_map]; repeat f_equal; euclid).
Qed.

(** Decoding undoes encoding, also in front of further bytes. *)
Lemma encode_decode_app (s : str) :
  forall (bs tl : bytes),
    encode s = Some bs ->
    decode (bs ++ tl) = option_map (app s) (decode tl).
Proof.
  induction s as [|c s IH]; intros bs tl H; simpl in H.
  - injection H as <-. simpl. now destruct (decode tl).
  - destruct (encode_char c) as [a|] eqn:Ha; [|discriminate].
    destruct (encode s) as [b|] eqn:Hb; [|discriminate].
    injection H as <-. rewrite <- app_assoc.
    rewrite (encode_char_decode _ _ _ Ha), (IH b tl eq_refl).
    now destruct (decode tl).
Qed.

Lemma encode_decode (s : str) (bs : bytes) :
  encode s = Some bs -> decode bs = Some s.
Proof.
  intros H. rewrite <- (app_nil_r bs), (encode_decode_app s bs [] H).
  simpl. now rewrite app_nil_r.
Qed.

Lemma encode_app (s t : str) (a b : bytes) :
  encode s = Some a -> encode t = Some b -> encode (s ++ t) = Some (a ++ b).
Proof.
  revert a. induction s as [|c s IH]; intros a Hs Ht; simpl in *.
  - now injection Hs as <-.
  - destruct (encode_char c) as [x|]; [|discriminate].
    destruct (encode s) as [y|]; [|discriminate].
    injection Hs as <-. rewrite (IH y eq_refl Ht), app_assoc. reflexivity.
Qed.

Local Ltac to_Z :=
  repeat match goal with
    | H : (_ && _) = true |- _ =>
        let H' := fresh H in apply andb_prop in H as [H H']
    | H : negb _ = true |- _ => apply negb_true_iff in H
    | H : (_ && _) = false |- _ => apply andb_false_iff in H
    | H : (_ <=? _) = true |- _ => apply Z.leb_le in H
    | H : (_ <? _) = true |- _ => apply Z.ltb_lt in H
    | H : (_ <=? _) = false |- _ => apply Z.leb_gt in H
    | H : (_ <? _) = false |- _ => apply Z.ltb_ge in H
    end.

Local Ltac same_byte :=
  apply b2z_inj; rewrite b2z_z2b by euclid; euclid.

(** Encoding undoes decoding: the text [decode] gives stands for
    exactly the bytes it was given. *)
Lemma decode_encode_upto (n : nat) :
  forall (bs : bytes) (s : str),
    (length bs <= n)%nat -> decode bs = Some s -> encode s = Some bs.
Proof.
  induction n as [|n IH]; intros bs s Hlen H.
  - destruct bs; [|simpl in Hlen; lia]. simpl in H. now apply Some_eq in H; subst.
  - destruct bs as [|b0 t0]; [simpl in H; now apply Some_eq in H; subst|].
    cbn [decode] in H. pose proof (b2z_range b0) as R0.
    destruct (Z.ltb_spec (b2z b0) 128).
    { destruct (decode t0) as [s'|] eqn:E; [|discriminate].
      apply Some_eq in H; subst s. cbn [encode].
      rewrite (IH t0 s') by (simpl in Hlen; lia || assumption).
      unfold encode_char. decide_tests. now rewrite z2b_b2z. }
    destruct (Z.ltb_spec (b2z b0) 192); [discriminate|].
    destruct (Z.ltb_spec (b2z b0) 224).
    { destruct t0 as [|b1 t1]; [discriminate|].
      match type of H with (if ?c then _ else _) = _ =>
        destruct c eqn:C; [|discriminate] end.
      destruct (decode t1) as [s'|] eqn:E; [|discriminate].
      apply Some_eq in H; subst s. unfold is_cont in C. to_Z.
      cbn [encode]. rewrite (IH t1 s') by (simpl in Hlen; lia || assumption).
      unfold encode_char. decide_tests. cbn [app].
      do 2 f_equal; [same_byte | f_equal; same_byte]. }
    destruct (Z.ltb_spec (b2z b0) 240).
    { destruct t0 as [|b1 [|b2 t2]]; [discriminate | discriminate |].
      match type of H with (if ?c then _ else _) = _ =>
        destruct c eqn:C; [|discriminate] end.
      destruct (decode t2) as [s'|] eqn:E; [|discriminate].
      apply Some_eq in H; subst s. unfold is_cont, is_surrogate in C. to_Z.
      cbn [encode]. rewrite (IH t2 s') by (simpl in Hlen; lia || assumption).
      unfold encode_char, is_surrogate.
      match goal with Hs : _ \/ _ |- _ => destruct Hs end;
        to_Z; decide_tests; cbn [andb app];
        (do 2 f_equal; [same_byte | f_equal; [same_byte | f_equal; same_byte]]). }
    destruct (Z.ltb_spec (b2z b0) 248); [|discriminate].
    destruct t0 as [|b1 [|b2 [|b3 t3]]]; try discriminate.
    match type of H with (if ?c then _ else _) = _ =>
      destruct c eqn:C; [|discriminate] end.
    destruct (decode t3) as [s'|] eqn:E; [|discriminate].
    apply Some_eq in H; subst s. unfold is_cont in C. to_Z.
    cbn [encode]. rewrite (IH t3 s') by (simpl in Hlen; lia || assumption).
    unfold encode_char. decide_tests. cbn [app].
    do 2 f_equal; [same_byte | f_equal; [same_byte | f_equal;
      [same_byte | f_equal; same_byte]]].
Qed.

Lemma decode_encode (bs : bytes) (s : str) :
  decode bs = Some s -> encode s = Some bs.
Proof. apply (decode_encode_upto (length bs)). lia. Qed.

(** The encoding of an LF-free text is LF-free: the bytes of a
    multi-byte sequence are all at least 0x80. *)
Lemma encode_char_no_LF (c : Z) (a : bytes) :
  encode_char c = Some a -> c <> 10 -> ~ In LF a.
Proof.
  encode_cases a; intros Hc Hin; cbn [In] in Hin;
    repeat (destruct Hin as [Hin|Hin]; [|]); try contradiction;
    apply (f_equal b2z) in Hin; rewrite b2z_z2b in Hin by euclid;
    change (b2z LF) with 10 in Hin; euclid.
Qed.

Lemma encode_no_LF (s : str) :
  forall bs, encode s = Some bs -> ~ In 10 s -> ~ In LF bs.
Proof.
  induction s as [|c s IH]; intros bs H Hs; simpl in H.
  - injection H as <-. intros [].
  - destruct (encode_char c) as [a|] eqn:Ha; [|discriminate].
    destruct (encode s) as [b|] eqn:Hb; [|discriminate].
    injection H as <-. intros Hin. apply in_app_or in Hin as [Hin|Hin].
    + revert Hin. apply (encode_char_no_LF c a Ha).
      intros ->. apply Hs. now left.
    + revert Hin. apply IH; [reflexivity|]. intros Hin. apply Hs. now right.
Qed.

(** ASCII text is encoded one byte per character. *)
Lemma encode_ascii (s : str) :
  Forall (fun c => 0 <= c < 128) s -> encode s = Some (ascii s).
Proof.
  induction 1 as [|c s Hc _ IH]; simpl; [reflexivity|].
  rewrite IH. unfold encode_char.
  destruct (Z.ltb_spec c 0); [lia|]. destruct (Z.ltb_spec c 128); [|lia].
  reflexivity.
Qed.

(** One character takes one to four bytes, and one byte exactly when
    it is ASCII. *)
Lemma encode_length (s : str) :
  forall bs, encode s = Some bs ->
    (length s <= length bs)%nat
    /\ (length bs = length s <-> Forall (fun c => c < 128) s).
Proof.
  induction s as [|c s IH]; intros bs H; simpl in H.
  - injection H as <-. simpl. split; [lia|]. split; auto.
  - destruct (encode_char c) as [a|] eqn:Ha; [|discriminate].
    destruct (encode s) as [b|] eqn:Hb; [|discriminate].
    injection H as <-. destruct (IH b eq_refl) as [Hle Hiff].
    rewrite length_app. simpl length.
    assert (Ha' : (c < 128 /\ length a = 1%nat)
                  \/ (128 <= c /\ (1 < length a)%nat)).
    { revert Ha. encode_cases a; cbn [length]; lia. }
    split; [lia|]. split.
    + intros Hlen. constructor; [lia|]. apply Hiff. lia.
    + intros Hall. inversion Hall as [|? ? Hc Hs]; subst.
      apply Hiff in Hs. lia.
Qed.

End Utf8.

(** ** Decimal text and [int] *)

Section Decimal.

Lemma digits_of_app (fuel : nat) :
  forall (n : Z) (acc tl : str),
    digits_of fuel n acc ++ tl = digits_of fuel n (acc ++ tl).
Proof.
  induction fuel as [|fuel IH]; intros n acc tl; cbn [digits_of];
    [reflexivity|].
  destruct (n <? 10); [reflexivity|]. now rewrite IH.
Qed.

Lemma digits_of_head (fuel : nat) :
  forall (n : Z) (acc : str),
    0 <= n ->
    (fuel = O -> starts_with_digit acc) ->
    starts_with_digit (digits_of fuel n acc).
Proof.
  induction fuel as [|fuel IH]; intros n acc Hn Hacc; cbn [digits_of];
    [now apply Hacc|].
  destruct (Z.ltb_spec n 10).
  - unfold starts_with_digit. Z.to_euclidean_division_equations; lia.
  - apply IH; [Z.to_euclidean_division_equations; lia|].
    intros _. unfold starts_with_digit.
    Z.to_euclidean_division_equations; lia.
Qed.

Lemma digits_of_ascii (fuel : nat) :
  forall (n : Z) (acc : str),
    0 <= n ->
    Forall (fun c => 0 <= c < 127) acc ->
    Forall (fun c => 0 <= c < 127) (digits_of fuel n acc).
Proof.
  induction fuel as [|fuel IH]; intros n acc Hn Hacc; cbn [digits_of];
    [assumption|].
  assert (Hd : 0 <= 48 + n mod 10 < 127)
    by (Z.to_euclidean_division_equations; lia).
  destruct (n <? 10); [now constructor|].
  apply IH; [Z.to_euclidean_division_equations; lia | now constructor].
Qed.

Lemma int_str_ascii (z : Z) : Forall (fun c => 0 <= c < 127) (int_str z).
Proof.
  unfold int_str, decimal. destruct (Z.ltb_spec z 0).
  - constructor; [lia|]. apply digits_of_ascii; [lia | constructor].
  - apply digits_of_ascii; [lia | constructor].
Qed.

(** The scan reads the digits of [n] back as [n]. *)
Lemma scan_digits_of (fuel : nat) :
  forall (n : Z) (tl : list Z),
    0 <= n < 2 ^ Z.of_nat (S fuel) ->
    exists p, forall (seen : bool) (acc : Z),
      scan_digits false seen acc (digits_of (S fuel) n tl)
      = scan_digits false true (acc * p + n) tl.
Proof.
  induction fuel as [|fuel IH]; intros n tl Hn; cbn [digits_of].
  - change (2 ^ Z.of_nat 1) with 2 in Hn.
    destruct (Z.ltb_spec n 10); [|lia].
    exists 10. intros seen acc. cbn [scan_digits]. unfold is_digit.
    replace (n mod 10) with n by (Z.to_euclidean_division_equations; lia).
    destruct (Z.leb_spec 48 (48 + n)); [|lia].
    destruct (Z.leb_spec (48 + n) 57); [|lia].
    cbn [andb]. f_equal. lia.
  - destruct (Z.ltb_spec n 10).
    + exists 10. intros seen acc. cbn [scan_digits]. unfold is_digit.
      replace (n mod 10) with n by (Z.to_euclidean_division_equations; lia).
      destruct (Z.leb_spec 48 (48 + n)); [|lia].
      destruct (Z.leb_spec (48 + n) 57); [|lia].
      cbn [andb]. f_equal. lia.
    + destruct (IH (n / 10) ((48 + n mod 10) :: tl)) as [p Hp].
      { rewrite Nat2Z.inj_succ, Z.pow_succ_r in Hn by lia.
        Z.to_euclidean_division_equations; lia. }
      exists (p * 10). intros seen acc.
      rewrite Hp. cbn [scan_digits]. unfold is_digit.
      destruct (Z.leb_spec 48 (48 + n mod 10));
        [|Z.to_euclidean_division_equations; lia].
      destruct (Z.leb_spec (48 + n mod 10) 57);
        [|Z.to_euclidean_division_equations; lia].
      cbn [andb]. f_equal. Z.to_euclidean_division_equations; lia.
Qed.

Lemma log2_fuel (n : Z) : 0 <= n -> 0 <= n < 2 ^ Z.of_nat (S (Z.to_nat (Z.log2 n))).
Proof.
  intros Hn. split; [assumption|].
  rewrite Nat2Z.inj_succ, Z2Nat.id by apply Z.log2_nonneg.
  destruct (Z.eq_dec n 0) as [->|Hz]; [reflexivity|].
  apply Z.log2_spec. lia.
Qed.

Lemma not_space_digit (d : Z) : 48 <= d <= 57 -> Py_ISSPACE d = false.
Proof.
  intros Hd. unfold Py_ISSPACE.
  destruct (Z.leb_spec d 13); [lia|]. destruct (Z.eqb_spec d 32); [lia|].
  now rewrite andb_false_r.
Qed.

(** The decimal text of [n], followed by the CR the line loop leaves
    behind, starts with a digit and is scanned back to [n]. *)
Lemma scan_decimal (n : Z) :
  0 <= n ->
  exists d more,
    decimal n ++ [13] = d :: more /\ 48 <= d <= 57
    /\ scan_digits false false 0 (d :: more) = Some (n, [13]).
Proof.
  intros Hn. unfold decimal. rewrite digits_of_app. cbn [app].
  set (fuel := Z.to_nat (Z.log2 n)).
  pose proof (digits_of_head (S fuel) n [13] Hn) as Hhead.
  destruct (scan_digits_of fuel n [13] (log2_fuel n Hn)) as [p Hp].
  specialize (Hp false 0).
  destruct (digits_of (S fuel) n [13]) as [|d more] eqn:E.
  { exfalso. apply Hhead. discriminate. }
  exists d, more. split; [reflexivity|].
  split; [apply Hhead; discriminate|].
  rewrite Hp. replace (0 * p + n) with n by lia. reflexivity.
Qed.

Lemma PyLong_FromString_decimal (n : Z) :
  0 <= n -> PyLong_FromString (decimal n ++ [13]) = Some n.
Proof.
  intros Hn. destruct (scan_decimal n Hn) as (d & more & -> & Hd & Hscan).
  unfold PyLong_FromString. cbn [skip_spaces].
  rewrite (not_space_digit d Hd).
  destruct (Z.eqb_spec d 43); [lia|]. destruct (Z.eqb_spec d 45); [lia|].
  destruct (Z.eqb_spec d 95); [lia|].
  rewrite Hscan. cbv beta iota.
  assert (Hs : skip_spaces [13] = []) by reflexivity.
  rewrite Hs. f_equal. lia.
Qed.

Lemma PyLong_FromString_minus (n : Z) :
  0 <= n -> PyLong_FromString (45 :: decimal n ++ [13]) = Some (- n).
Proof.
  intros Hn. destruct (scan_decimal n Hn) as (d & more & -> & Hd & Hscan).
  change (PyLong_FromString (45 :: d :: more))
    with (if d =? 95 then None
          else match scan_digits false false 0 (d :: more) with
               | Some (v, rest) =>
                   match skip_spaces rest with
                   | [] => Some (-1 * v)
                   | _ => None
                   end
               | None => None
               end).
  destruct (Z.eqb_spec d 95); [lia|].
  rewrite Hscan.
  assert (Hs : skip_spaces [13] = []) by reflexivity.
  rewrite Hs. f_equal; lia.
Qed.

(** [int] reads the decimal text of every integer back. *)
Lemma PyLong_FromString_int_str (z : Z) :
  PyLong_FromString (int_str z ++ [13]) = Some z.
Proof.
  unfold int_str. destruct (Z.ltb_spec z 0).
  - cbn [app]. rewrite PyLong_FromString_minus by lia. f_equal. lia.
  - now apply PyLong_FromString_decimal.
Qed.

Lemma to_ascii_digits_ascii (s : str) :
  Forall (fun c => 0 <= c < 127) s -> to_ascii_digits s = Some s.
Proof.
  induction 1 as [|c s Hc _ IH]; simpl; [reflexivity|].
  rewrite IH. unfold to_ascii_digit.
  destruct (Z.ltb_spec c 127); [reflexivity | lia].
Qed.

(** [int(str(z) + "\r")] is [z], for every integer. *)
Lemma int_of_str_int_str (z : Z) : int_of_str (int_str z ++ [13]) = Some z.
Proof.
  unfold int_of_str. rewrite to_ascii_digits_ascii.
  - apply PyLong_FromString_int_str.
  - apply Forall_app. split; [apply int_str_ascii|].
    constructor; [lia | constructor].
Qed.

(** The bytes of an ASCII text. *)
Lemma map_b2z_z2b (s : str) :
  Forall (fun c => 0 <= c < 127) s -> map b2z (map z2b s) = s.
Proof.
  induction 1 as [|c s Hc _ IH]; simpl; [reflexivity|].
  rewrite IH, b2z_z2b by lia. reflexivity.
Qed.

Lemma int_of_bytes_int_str (z : Z) :
  int_of_bytes (ascii (int_str z) ++ [CR]) = Some z.
Proof.
  unfold int_of_bytes, ascii. rewrite map_app, map_b2z_z2b by apply int_str_ascii.
  apply PyLong_FromString_int_str.
Qed.

Lemma ascii_weaken (s : str) :
  Forall (fun c => 0 <= c < 127) s -> Forall (fun c => 0 <= c < 128) s.
Proof. apply Forall_impl. intros; lia. Qed.

(** The decimal text has no LF in it. *)
Lemma int_str_bytes_no_LF (z : Z) : ~ In LF (ascii (int_str z)).
Proof.
  unfold ascii. intros Hin. apply in_map_iff in Hin as (c & Hc & Hin).
  pose proof (int_str_ascii z) as Hall.
  rewrite Forall_forall in Hall. specialize (Hall c Hin).
  apply (f_equal b2z) in Hc. rewrite b2z_z2b in Hc by lia.
  change (b2z LF) with 10 in Hc. subst c.
  revert Hin. unfold int_str, decimal.
  assert (Hdig : forall fuel n acc, 0 <= n -> ~ In 10 acc ->
                   ~ In 10 (digits_of fuel n acc)).
  { induction fuel as [|fuel IH]; intros n acc Hn Hacc; cbn [digits_of];
      [assumption|].
    assert (Hnew : ~ In 10 ((48 + n mod 10) :: acc)).
    { intros [Heq|Hin]; [Z.to_euclidean_division_equations; lia | tauto]. }
    destruct (n <? 10); [assumption|].
    apply IH; [Z.to_euclidean_division_equations; lia | assumption]. }
  destruct (Z.ltb_spec z 0).
  - intros [Heq|Hin]; [discriminate|].
    revert Hin. apply Hdig; [lia | intros []].
  - apply Hdig; [lia | intros []].
Qed.

End Decimal.

(** ** The reply decoder, tag by tag *)

Section Reply.

Lemma drop_last_1 {A : Type} (l : list A) (x : A) :
  drop_last 1 (l ++ [x]) = l.
Proof. apply (drop_last_app l [x]). Qed.

Lemma drop_last_2 {A : Type} (l : list A) (x y : A) :
  drop_last 2 (l ++ [x; y]) = l.
Proof. apply (drop_last_app l [x; y]). Qed.

Variables (self : Client) (fuel : nat).

(** Evaluate the tests on a tag that is known. *)
Local Ltac pick_branch :=
  repeat match goal with
    | |- context [bytes_eqb [?t] (blit ?u)] =>
        let b := eval vm_compute in (bytes_eqb [t] (blit u)) in
        change (bytes_eqb [t] (blit u)) with b; cbv beta iota
    end.

(** What the three line-delimited tags have in common: the tag, the
    line up to its LF, and the rest of the stream left as it is. *)
Local Ltac read_tag_and_line Hcat Hnl Hfuel :=
  let rd1 := fresh "rd1" in
  let Htag := fresh "Htag" in
  let Hrd1 := fresh "Hrd1" in
  let rd2 := fresh "rd2" in
  let Hline := fresh "Hline" in
  let Hrd2 := fresh "Hrd2" in
  destruct (read_one _ _ _ Hcat) as (rd1 & Htag & Hrd1);
  destruct (read_line_ok _ [] (with_reader self rd1) _ fuel Hnl Hrd1 Hfuel)
    as (rd2 & Hline & Hrd2);
  exists rd2; split; [exact Hrd2|];
  unfold _reply, bind; rewrite (reader_read_eq _ _ _ _ Htag);
  pick_branch.

Lemma reply_integer (line rest : bytes) :
  ~ In LF line ->
  concat (r self) = ":"%byte :: line ++ LF :: rest ->
  (length line < fuel)%nat ->
  exists rd',
    concat rd' = rest
    /\ _reply fuel self
       = (decoded line (fun text =>
            match int_of_str text with
            | Some n => Return (PyInt n)
            | None => Raise ValueError
            end),
          with_reader self rd').
Proof.
  intros Hnl Hcat Hfuel. read_tag_and_line Hcat Hnl Hfuel.
  rewrite Hline. cbn [app]. rewrite drop_last_1. unfold decoded.
  destruct (decode line) as [text|]; [|reflexivity].
  cbn [or_raise ret]. destruct (int_of_str text); reflexivity.
Qed.

Lemma reply_error (line rest : bytes) :
  ~ In LF line ->
  concat (r self) = "-"%byte :: line ++ LF :: rest ->
  (length line < fuel)%nat ->
  exists rd',
    concat rd' = rest
    /\ _reply fuel self
       = (decoded line (fun text => Raise (Exception text)),
          with_reader self rd').
Proof.
  intros Hnl Hcat Hfuel. read_tag_and_line Hcat Hnl Hfuel.
  rewrite Hline. cbn [app]. rewrite drop_last_1. unfold decoded.
  destruct (decode line) as [text|]; reflexivity.
Qed.

Lemma reply_simple (line rest : bytes) :
  ~ In LF line ->
  concat (r self) = "+"%byte :: line ++ LF :: rest ->
  (length line < fuel)%nat ->
  exists rd',
    concat rd' = rest
    /\ _reply fuel self
       = (decoded line (fun text => Return (PyStr text)),
          with_reader self rd').
Proof.
  intros Hnl Hcat Hfuel. read_tag_and_line Hcat Hnl Hfuel.
  rewrite Hline. cbn [app]. rewrite drop_last_1. unfold decoded.
  destruct (decode line) as [text|]; reflexivity.
Qed.

(** A bulk string: the length line, then [n + 2] bytes whatever they
    are (none when [n + 2] is not positive), of which the last two are
    dropped unseen. *)
Lemma reply_bulk (length_line body rest : bytes) (n : Z) :
  ~ In LF length_line ->
  concat (r self) = "$"%byte :: length_line ++ LF :: body ++ rest ->
  int_of_bytes length_line = Some n ->
  Z.of_nat (length body) = Z.max 0 (n + 2) ->
  (length length_line < fuel)%nat ->
  (length body <= fuel)%nat ->
  exists rd',
    concat rd' = rest
    /\ _reply fuel self
       = (decoded (drop_last 2 body) (fun text => Return (PyStr text)),
          with_reader self rd').
Proof.
  intros Hnl Hcat Hn Hbody Hfuel Hfuel'.
  destruct (read_one _ _ _ Hcat) as (rd1 & Htag & Hrd1).
  destruct (read_line_ok _ [] (with_reader self rd1) _ fuel Hnl Hrd1 Hfuel)
    as (rd2 & Hline & Hrd2).
  unfold _reply, bind. rewrite (reader_read_eq _ _ _ _ Htag). pick_branch.
  rewrite Hline. cbn [app]. rewrite drop_last_1, Hn. cbn [or_raise ret].
  destruct (Z.le_gt_cases (n + 2) 0) as [Hneg|Hpos].
  - rewrite read_exactly_done by (simpl; lia).
    destruct body; [|simpl in Hbody; lia].
    exists rd2. split; [exact Hrd2 | reflexivity].
  - destruct (read_exactly_ok fuel (n + 2) []
                (with_reader (with_reader self rd1) rd2) body rest)
      as (rd3 & Hloop & Hrd3); [simpl; lia | exact Hrd2 | exact Hfuel' |].
    rewrite Hloop. cbn [app]. exists rd3. split; [exact Hrd3|].
    unfold decoded. destruct (decode (drop_last 2 body)); reflexivity.
Qed.

(** Any other tag: up to 100 of the bytes that follow, as many as the
    fragment at hand holds, are taken for the message. *)
Lemma reply_unknown (tag : byte) (following : bytes) :
  concat (r self) = tag :: following ->
  ~ In tag (blit ":-$+") ->
  exists msg rd',
    following = msg ++ concat rd'
    /\ (length msg <= 100)%nat
    /\ _reply fuel self
       = (decoded msg (fun text =>
            Raise (Exception (lit "Unkown tag: " ++ bytes_repr [tag]
                              ++ lit ", msg: " ++ text))),
          with_reader self rd').
Proof.
  intros Hcat Htag.
  destruct (read_one _ _ _ Hcat) as (rd1 & Hread & Hrd1).
  destruct (read_prefix 100 rd1) as (Happ & Hlen & _).
  destruct (read 100 rd1) as [msg rd2] eqn:Hmsg. simpl in Happ, Hlen.
  exists msg, rd2. split; [now rewrite Happ, Hrd1 | split; [exact Hlen|]].
  unfold _reply, bind. rewrite (reader_read_eq _ _ _ _ Hread).
  rewrite !bytes_eqb_neq
    by (intros [= ->]; apply Htag; simpl; tauto).
  rewrite (reader_read_eq 100 (with_reader self rd1) msg rd2)
    by exact Hmsg.
  unfold decoded. destruct (decode msg); reflexivity.
Qed.

(** At the end of the stream the tag is empty, which is no known tag. *)
Lemma reply_at_eof :
  concat (r self) = [] ->
  fst (_reply fuel self)
  = Raise (Exception (lit "Unkown tag: b''" ++ lit ", msg: ")).
Proof.
  intros Hcat.
  destruct (read_eof 1 _ Hcat) as (rd1 & Hread & Hrd1).
  destruct (read_eof 100 _ Hrd1) as (rd2 & Hmsg & Hrd2).
  unfold _reply, bind. rewrite (reader_read_eq _ _ _ _ Hread).
  change (bytes_eqb [] (blit ":")) with false.
  change (bytes_eqb [] (blit "-")) with false.
  change (bytes_eqb [] (blit "$")) with false.
  change (bytes_eqb [] (blit "+")) with false.
  cbv beta iota.
  rewrite (reader_read_eq 100 (with_reader self rd1) [] rd2) by exact Hmsg.
  reflexivity.
Qed.

(** The stream ends inside a line: the line loop never ends. *)
Lemma reply_line_eof (tag : byte) (partial : bytes) :
  In tag (blit ":-$+") ->
  concat (r self) = tag :: partial ->
  ~ In LF partial ->
  fst (_reply fuel self) = OutOfFuel.
Proof.
  intros Htag Hcat Hnl.
  destruct (read_one _ _ _ Hcat) as (rd1 & Hread & Hrd1).
  pose proof (read_line_eof fuel [] (with_reader self rd1)) as Hloop.
  simpl in Hloop. rewrite Hrd1 in Hloop. specialize (Hloop Hnl).
  unfold _reply, bind. rewrite (reader_read_eq _ _ _ _ Hread).
  simpl in Htag.
  destruct Htag as [<-|[<-|[<-|[<-|[]]]]]; pick_branch;
    destruct (read_line fuel [] (with_reader self rd1)) as [res s'];
    simpl in Hloop; subst res; reflexivity.
Qed.

(** The stream ends inside the payload of a bulk string: the payload
    loop never ends. *)
Lemma reply_bulk_eof (length_line partial : bytes) (n : Z) :
  ~ In LF length_line ->
  concat (r self) = "$"%byte :: length_line ++ LF :: partial ->
  int_of_bytes length_line = Some n ->
  Z.of_nat (length partial) < n + 2 ->
  fst (_reply fuel self) = OutOfFuel.
Proof.
  intros Hnl Hcat Hn Hshort.
  destruct (read_one _ _ _ Hcat) as (rd1 & Htag & Hrd1).
  unfold _reply, bind. rewrite (reader_read_eq _ _ _ _ Htag). pick_branch.
  destruct (Nat.lt_ge_cases (length length_line) fuel) as [Hfuel|Hfuel].
  - destruct (read_line_ok _ [] (with_reader self rd1) _ fuel Hnl Hrd1 Hfuel)
      as (rd2 & Hline & Hrd2).
    rewrite Hline. cbn [app]. rewrite drop_last_1, Hn. cbn [or_raise ret].
    pose proof (read_exactly_eof fuel (n + 2) []
                  (with_reader (with_reader self rd1) rd2)) as Hloop.
    simpl in Hloop. rewrite Hrd2 in Hloop. specialize (Hloop Hshort).
    destruct (read_exactly fuel (n + 2) [] _) as [res s'].
    simpl in Hloop. subst res. reflexivity.
  - pose proof (read_line_low_fuel _ [] (with_reader self rd1) _ fuel
                  Hnl Hrd1 Hfuel) as Hloop.
    destruct (read_line fuel [] (with_reader self rd1)) as [res s'].
    simpl in Hloop. subst res. reflexivity.
Qed.

End Reply.

(** ** The decoder and the writer *)

Create HintDb reader_only.

Section ReaderOnly.

Lemma reader_only_ret {A : Type} (a : A) : reader_only (ret a).
Proof. intros self wr. reflexivity. Qed.

Lemma reader_only_raise {A : Type} (e : exn) : reader_only (@raise A e).
Proof. intros self wr. reflexivity. Qed.

Lemma reader_only_out_of_fuel {A : Type} : reader_only (@out_of_fuel A).
Proof. intros self wr. reflexivity. Qed.

Lemma reader_only_or_raise {A : Type} (e : exn) (o : option A) :
  reader_only (or_raise e o).
Proof. destruct o; [apply reader_only_ret | apply reader_only_raise]. Qed.

Lemma reader_only_read (n : nat) : reader_only (reader_read n).
Proof.
  intros self wr. unfold reader_read. simpl.
  destruct (read n (r self)); reflexivity.
Qed.

Lemma reader_only_bind {A B : Type} (m : M A) (k : A -> M B) :
  reader_only m -> (forall a, reader_only (k a)) -> reader_only (bind m k).
Proof.
  intros Hm Hk self wr. unfold bind. rewrite (Hm self wr).
  destruct (m self) as [[a|e|] self']; simpl; [|reflexivity..].
  rewrite (Hk a self' wr). reflexivity.
Qed.

Lemma reader_only_if {A : Type} (b : bool) (m1 m2 : M A) :
  reader_only m1 -> reader_only m2 -> reader_only (if b then m1 else m2).
Proof. now destruct b. Qed.

Lemma reader_only_read_line (fuel : nat) :
  forall acc, reader_only (read_line fuel acc).
Proof.
  induction fuel as [|fuel IH]; intros acc; cbn [read_line].
  - apply reader_only_out_of_fuel.
  - apply reader_only_bind; [apply reader_only_read|]. intros ch.
    apply reader_only_if; [apply reader_only_ret | apply IH].
Qed.

Lemma reader_only_read_exactly (fuel : nat) :
  forall n acc, reader_only (read_exactly fuel n acc).
Proof.
  induction fuel as [|fuel IH]; intros n acc; cbn [read_exactly];
    apply reader_only_if; try apply reader_only_ret.
  - apply reader_only_out_of_fuel.
  - apply reader_only_bind; [apply reader_only_read|]. intros chunk.
    apply IH.
Qed.

#[local] Hint Resolve reader_only_ret reader_only_raise reader_only_or_raise
  reader_only_read reader_only_read_line reader_only_read_exactly
  : reader_only.

(** [_reply] reads; it neither writes nor depends on what was written. *)
Lemma reader_only_reply (fuel : nat) : reader_only (_reply fuel).
Proof.
  unfold _reply.
  repeat first
    [ apply reader_only_bind; [auto with reader_only | intros ?]
    | apply reader_only_if
    | solve [auto with reader_only] ].
Qed.

(** What every command does once its request text is encoded: the
    bytes go behind what was written before, everything written is on
    the wire, and one reply is decoded from the reader as it stood. *)
Lemma request_effect (fuel : nat) (text : str) (data : bytes)
      (self : Client) :
  encode text = Some data ->
  request fuel text self
  = (fst (_reply fuel self),
     {| r := r (snd (_reply fuel self));
        w := {| pending := [];
                sent := sent (w self) ++ pending (w self) ++ data |} |}).
Proof.
  intros H. unfold request, bind. rewrite H. cbn.
  apply (reader_only_reply fuel self).
Qed.

(** A text that cannot be encoded is never written. *)
Lemma request_unencodable (fuel : nat) (text : str) (self : Client) :
  encode text = None ->
  request fuel text self = (Raise UnicodeEncodeError, self).
Proof. intros H. unfold request, bind. now rewrite H. Qed.

End ReaderOnly.

(** ** Whole replies *)

Section Frames.

Lemma decoded_returns (line : bytes) (k : str -> result object) :
  (forall text, k text <> OutOfFuel) -> decoded line k <> OutOfFuel.
Proof.
  intros Hk. unfold decoded. destruct (decode line); [apply Hk | discriminate].
Qed.

Lemma length_line_no_LF (n : Z) : ~ In LF (ascii (int_str n) ++ [CR]).
Proof.
  intros Hin. apply in_app_or in Hin as [Hin|[Hin|[]]].
  - now apply int_str_bytes_no_LF in Hin.
  - discriminate.
Qed.

(** A frame decodes to one result, the same however it is fragmented
    and whatever follows it, and the reader is left at what follows. *)
Lemma reply_frame (frame : bytes) :
  resp_frame frame ->
  exists res,
    res <> OutOfFuel
    /\ forall (rest : bytes) (self : Client) (fuel : nat),
        concat (r self) = frame ++ rest ->
        (length frame <= fuel)%nat ->
        exists rd',
          concat rd' = rest
          /\ _reply fuel self = (res, with_reader self rd').
Proof.
  intros [tag line Htag Hnl | n body Hn Hbody].
  - assert (Hshape : forall rest,
               (tag :: line ++ [LF]) ++ rest = tag :: line ++ LF :: rest).
    { intros rest. simpl. now rewrite <- app_assoc. }
    simpl in Htag. destruct Htag as [<-|[<-|[<-|[]]]].
    + eexists. split; [|intros rest self fuel Hcat Hfuel].
      2:{ rewrite Hshape in Hcat. apply (reply_integer self fuel line rest Hnl Hcat).
          simpl in Hfuel. rewrite length_app in Hfuel. simpl in Hfuel. lia. }
      apply decoded_returns. intros text. destruct (int_of_str text); discriminate.
    + eexists. split; [|intros rest self fuel Hcat Hfuel].
      2:{ rewrite Hshape in Hcat. apply (reply_error self fuel line rest Hnl Hcat).
          simpl in Hfuel. rewrite length_app in Hfuel. simpl in Hfuel. lia. }
      apply decoded_returns. discriminate.
    + eexists. split; [|intros rest self fuel Hcat Hfuel].
      2:{ rewrite Hshape in Hcat. apply (reply_simple self fuel line rest Hnl Hcat).
          simpl in Hfuel. rewrite length_app in Hfuel. simpl in Hfuel. lia. }
      apply decoded_returns. discriminate.
  - eexists. split; [|intros rest self fuel Hcat Hfuel].
    2:{ assert (Hshape : (blit "$" ++ ascii (int_str n) ++ [CR; LF] ++ body) ++ rest
                         = "$"%byte :: (ascii (int_str n) ++ [CR]) ++ LF :: body ++ rest).
        { change (blit "$") with ["$"%byte]. cbn [app].
          rewrite <- !app_assoc. reflexivity. }
        rewrite Hshape in Hcat.
        assert (Hlen : length (blit "$" ++ ascii (int_str n) ++ [CR; LF] ++ body)
                       = (3 + length (ascii (int_str n)) + length body)%nat).
        { change (blit "$") with ["$"%byte]. cbn [app length].
          rewrite !length_app. cbn [length]. lia. }
        rewrite Hlen in Hfuel.
        apply (reply_bulk self fuel _ body rest n (length_line_no_LF n) Hcat).
        - apply int_of_bytes_int_str.
        - lia.
        - rewrite length_app. simpl. lia.
        - lia. }
    apply decoded_returns. discriminate.
Qed.

(** A proper prefix of [l ++ [x]] is a prefix of [l]. *)
Lemma proper_prefix_snoc {A : Type} (l p m : list A) (x : A) :
  l ++ [x] = p ++ m -> m <> [] -> exists m', l = p ++ m'.
Proof.
  intros H Hm. destruct (exists_last Hm) as (m' & a & ->).
  rewrite app_assoc in H. apply app_inj_tail in H as [H _].
  now exists m'.
Qed.

(** A frame cut short by the end of the stream: the decoder neither
    returns nor raises, whatever the fuel. *)
Lemma reply_cut_short (frame partial missing : bytes) (self : Client)
      (fuel : nat) :
  resp_frame frame ->
  frame = partial ++ missing ->
  partial <> [] -> missing <> [] ->
  concat (r self) = partial ->
  fst (_reply fuel self) = OutOfFuel.
Proof.
  intros Hframe Hsplit Hp Hm Hcat.
  destruct partial as [|tag' p']; [congruence|]. clear Hp.
  destruct Hframe as [tag line Htag Hnl | n body Hn Hbody].
  - simpl in Hsplit. injection Hsplit as <- Hsplit.
    destruct (proper_prefix_snoc _ _ _ _ Hsplit Hm) as [m' ->].
    apply (reply_line_eof self fuel tag p').
    + simpl in *. tauto.
    + exact Hcat.
    + intros Hin. apply Hnl. apply in_or_app. now left.
  - change (blit "$") with ["$"%byte] in Hsplit. simpl in Hsplit.
    injection Hsplit as <- Hsplit.
    replace (ascii (int_str n) ++ CR :: LF :: body)
      with (((ascii (int_str n) ++ [CR]) ++ [LF]) ++ body) in Hsplit
      by (rewrite <- !app_assoc; reflexivity).
    apply app_eq_app in Hsplit as [l [[Hl Hmiss]|[Hl Hbd]]].
    + destruct l as [|x l].
      * rewrite app_nil_r in Hl. subst p'.
        apply (reply_bulk_eof self fuel (ascii (int_str n) ++ [CR]) [] n).
        -- apply length_line_no_LF.
        -- rewrite Hcat, <- !app_assoc. reflexivity.
        -- apply int_of_bytes_int_str.
        -- simpl. lia.
      * destruct (proper_prefix_snoc _ _ _ _ Hl ltac:(discriminate))
          as [m' Hm'].
        apply (reply_line_eof self fuel "$"%byte p').
        -- simpl. tauto.
        -- exact Hcat.
        -- intros Hin. apply (length_line_no_LF n). rewrite Hm'.
           apply in_or_app. now left.
    + subst p' body.
      apply (reply_bulk_eof self fuel (ascii (int_str n) ++ [CR]) l n).
      * apply length_line_no_LF.
      * rewrite Hcat, <- !app_assoc. reflexivity.
      * apply int_of_bytes_int_str.
      * rewrite length_app in Hbody.
        destruct missing; [congruence|]. simpl in Hbody. lia.
Qed.

(** A simple string comes back with the CR of its terminator: only the
    LF is cut off the line. *)
Lemma reply_simple_text (text : str) (bs rest : bytes) (self : Client)
      (fuel : nat) :
  encode text = Some bs ->
  ~ In 10 text ->
  concat (r self) = blit "+" ++ bs ++ [CR; LF] ++ rest ->
  (length bs + 1 < fuel)%nat ->
  exists rd',
    concat rd' = rest
    /\ _reply fuel self = (Return (PyStr (text ++ [13])), with_reader self rd').
Proof.
  intros Henc Hnl Hcat Hfuel.
  destruct (reply_simple self fuel (bs ++ [CR]) rest) as (rd' & Hrd' & Hreply).
  - intros Hin. apply in_app_or in Hin as [Hin|[Hin|[]]]; [|discriminate].
    now apply (encode_no_LF text bs Henc Hnl).
  - rewrite Hcat. change (blit "+") with ["+"%byte]. cbn [app].
    rewrite <- !app_assoc. reflexivity.
  - rewrite length_app. simpl. lia.
  - exists rd'. split; [exact Hrd'|]. rewrite Hreply. unfold decoded.
    rewrite (encode_decode_app text bs [CR] Henc). reflexivity.
Qed.

(** The null bulk string [$-1\r\n]: one byte of what follows is read
    and dropped, and the empty string is returned. *)
Lemma reply_null_bulk (b : byte) (rest : bytes) (self : Client)
      (fuel : nat) :
  concat (r self) = blit "$-1" ++ [CR; LF] ++ b :: rest ->
  (3 < fuel)%nat ->
  exists rd',
    concat rd' = rest
    /\ _reply fuel self = (Return (PyStr []), with_reader self rd').
Proof.
  intros Hcat Hfuel.
  destruct (reply_bulk self fuel (blit "-1" ++ [CR]) [b] rest (-1))
    as (rd' & Hrd' & Hreply).
  - simpl. intuition discriminate.
  - rewrite Hcat. reflexivity.
  - reflexivity.
  - reflexivity.
  - simpl. lia.
  - simpl. lia.
  - exists rd'. split; [exact Hrd' | exact Hreply].
Qed.

End Frames.

(** ** Requests *)

Section Requests.

Lemma encode_head (c : Z) (t : str) (data : bytes) :
  0 <= c < 128 -> encode (c :: t) = Some data ->
  exists d, data = z2b c :: d.
Proof.
  intros Hc H. cbn [encode] in H. unfold encode_char in H.
  destruct (Z.ltb_spec c 0); [lia|]. destruct (Z.ltb_spec c 128); [|lia].
  destruct (encode t) as [d|]; [|discriminate].
  injection H as <-. now exists d.
Qed.

(** What [send] leaves on the wire: nothing new when it raises before
    writing, and otherwise bytes that start with [*]. *)
Lemma send_wire_cases (fuel : nat) (args : list object) (self : Client) :
  sent (w (snd (send fuel args self))) = sent (w self)
  \/ exists d, sent (w (snd (send fuel args self)))
               = sent (w self) ++ pending (w self) ++ "*"%byte :: d.
Proof.
  unfold send, bind. destruct (resp_args args) as [joined|]; cbn [or_raise ret raise];
    [|now left].
  set (text := lit "*" ++ _).
  destruct (encode text) as [data|] eqn:E.
  - right. rewrite (request_effect fuel text data self E). cbn [snd w sent].
    destruct (encode_head 42 _ data ltac:(lia) E) as [d ->]. now exists d.
  - left. now rewrite (request_unencodable fuel text self E).
Qed.

(** A request whose text starts with an ASCII character other than [*]
    puts on the wire what no call of [send] puts there. *)
Lemma request_not_send (fuel : nat) (c : Z) (t : str) (data : bytes)
      (self : Client) :
  0 <= c < 128 -> c <> 42 -> encode (c :: t) = Some data ->
  forall args,
    sent (w (snd (send fuel args self)))
    <> sent (w (snd (request fuel (c :: t) self))).
Proof.
  intros Hc Hstar E args.
  rewrite (request_effect fuel _ data self E). cbn [snd w sent].
  destruct (encode_head c t data Hc E) as [d ->].
  destruct (send_wire_cases fuel args self) as [-> | [d' ->]]; intros H.
  - rewrite <- (app_nil_r (sent (w self))) in H at 1.
    apply app_inv_head in H. destruct (pending (w self)); discriminate.
  - do 2 apply app_inv_head in H. injection H as H _.
    apply (f_equal b2z) in H. rewrite b2z_z2b in H by lia.
    change (b2z "*"%byte) with 42 in H. lia.
Qed.

Lemma resp_args_str (texts : list str) :
  resp_args (map PyStr texts)
  = Some (flat_map (fun s => lit "$" ++ int_str (Z.of_nat (length s))
                             ++ crlf ++ s ++ crlf) texts).
Proof.
  induction texts as [|s texts IH]; [reflexivity|].
  cbn [map resp_args flat_map]. rewrite IH. reflexivity.
Qed.

(** What [send] puts on the wire for [str] arguments: each [$] prefix
    is the number of characters of the argument, in front of the bytes
    of its encoding. *)
Lemma send_str_wire (fuel : nat) (texts : list str) (encoded : list bytes)
      (self : Client) :
  Forall2 (fun s b => encode s = Some b) texts encoded ->
  send fuel (map PyStr texts) self
  = (fst (_reply fuel self),
     {| r := r (snd (_reply fuel self));
        w := {| pending := [];
                sent := sent (w self) ++ pending (w self)
                        ++ blit "*"
                        ++ ascii (int_str (Z.of_nat (length texts)))
                        ++ [CR; LF]
                        ++ flat_map
                             (fun '(s, b) =>
                                blit "$"
                                ++ ascii (int_str (Z.of_nat (length s)))
                                ++ [CR; LF] ++ b ++ [CR; LF])
                             (combine texts encoded) |} |}).
Proof.
  intros Hall. unfold send, bind. rewrite resp_args_str. cbn [or_raise ret].
  apply request_effect. rewrite length_map.
  assert (Hnum : forall n, encode (int_str n) = Some (ascii (int_str n)))
    by (intros n; apply encode_ascii, ascii_weaken, int_str_ascii).
  repeat (apply encode_app; [reflexivity || apply Hnum|]).
  induction Hall as [|s b texts encoded Hs _ IH]; [reflexivity|].
  cbn [flat_map combine]. apply encode_app; [|exact IH].
  repeat (apply encode_app; [reflexivity || apply Hnum || exact Hs|]).
  reflexivity.
Qed.

Lemma ascii_app (s t : str) : ascii (s ++ t) = ascii s ++ ascii t.
Proof. apply map_app. Qed.

Lemma length_ascii (s : str) : length (ascii s) = length s.
Proof. apply length_map. Qed.

(** For ASCII arguments the request of [send] is the multi-bulk form:
    there a character is a byte, and [len] counts both. *)
Lemma send_ascii_multi_bulk (fuel : nat) (texts : list str)
      (self : Client) :
  Forall (Forall (fun c => 0 <= c < 127)) texts ->
  send fuel (map PyStr texts) self
  = (fst (_reply fuel self),
     {| r := r (snd (_reply fuel self));
        w := {| pending := [];
                sent := sent (w self) ++ pending (w self)
                        ++ multi_bulk (map ascii texts) |} |}).
Proof.
  intros Hall. unfold send, bind. rewrite resp_args_str. cbn [or_raise ret].
  apply request_effect. rewrite length_map.
  match goal with
  | |- context [flat_map ?f texts] => set (joined := flat_map f texts)
  end.
  assert (Hjoined : Forall (fun c => 0 <= c < 127) joined
                    /\ ascii joined
                       = flat_map (fun arg => blit "$"
                           ++ ascii (int_str (Z.of_nat (length arg)))
                           ++ [CR; LF] ++ arg ++ [CR; LF]) (map ascii texts)).
  { subst joined. induction Hall as [|s texts Hs _ [IHa IHb]];
      [split; [constructor | reflexivity]|].
    cbn [flat_map map]. split.
    - repeat (apply Forall_app; split); try assumption.
      + repeat constructor; vm_compute; intuition discriminate.
      + apply int_str_ascii.
      + repeat constructor; lia.
      + repeat constructor; lia.
    - rewrite !ascii_app, IHb, length_ascii. reflexivity. }
  destruct Hjoined as [Hascii Hbytes].
  rewrite encode_ascii.
  - f_equal. unfold multi_bulk. rewrite length_map, !ascii_app, Hbytes.
    reflexivity.
  - apply ascii_weaken. repeat (apply Forall_app; split).
    + repeat constructor; vm_compute; intuition discriminate.
    + apply int_str_ascii.
    + repeat constructor; lia.
    + exact Hascii.
Qed.

End Requests.

(** * The claims of the specification *)

(** C1.  The specification asks for the byte length of each argument in
    its [$<len>] prefix.  [send] writes [len(arg)], the number of
    characters: for [send("GET", "é")] the prefix says 1 where the
    argument takes the two bytes C3 A9, so the bytes on the wire are not
    the multi-bulk form of the arguments' bytes. *)
Theorem send_prefix_counts_characters :
  let self := connect [blit "$-1" ++ [CR; LF]] in
  let wire := sent (w (snd (send 8 [PyStr (lit "GET"); PyStr [233]] self))) in
  wire = blit "*2" ++ [CR; LF] ++ blit "$3" ++ [CR; LF] ++ blit "GET"
         ++ [CR; LF] ++ blit "$1" ++ [CR; LF] ++ [z2b 0xC3; z2b 0xA9]
         ++ [CR; LF]
  /\ multi_bulk [blit "GET"; [z2b 0xC3; z2b 0xA9]]
     = blit "*2" ++ [CR; LF] ++ blit "$3" ++ [CR; LF] ++ blit "GET"
       ++ [CR; LF] ++ blit "$2" ++ [CR; LF] ++ [z2b 0xC3; z2b 0xA9]
       ++ [CR; LF]
  /\ wire <> multi_bulk [blit "GET"; [z2b 0xC3; z2b 0xA9]].
Proof.
  vm_compute. repeat split. discriminate.
Qed.

(** C2, as amended.  A bulk string reply [$<n>\r\n] + payload + [\r\n]
    whose [n] payload bytes are valid UTF-8 decodes to the text those
    bytes encode, CR and LF bytes included, whatever follows and however
    the stream is fragmented; a payload that is not valid UTF-8 makes the
    decoder raise [UnicodeDecodeError].  Either way the reader is left
    just behind the reply. *)
Theorem bulk_reply_decodes_utf8 (payload rest : bytes) (self : Client)
        (fuel : nat) :
  concat (r self)
  = blit "$" ++ ascii (int_str (Z.of_nat (length payload))) ++ [CR; LF]
    ++ payload ++ [CR; LF] ++ rest ->
  (length (int_str (Z.of_nat (length payload))) + 1 < fuel)%nat ->
  (length payload + 2 <= fuel)%nat ->
  exists rd',
    concat rd' = rest
    /\ match decode payload with
       | Some text =>
           _reply fuel self = (Return (PyStr text), with_reader self rd')
           /\ encode text = Some payload
       | None =>
           _reply fuel self = (Raise UnicodeDecodeError, with_reader self rd')
       end.
Proof.
  intros Hcat Hfuel Hfuel'.
  set (n := Z.of_nat (length payload)) in *.
  destruct (reply_bulk self fuel (ascii (int_str n) ++ [CR])
              (payload ++ [CR; LF]) rest n) as (rd' & Hrd' & Hreply).
  - apply length_line_no_LF.
  - rewrite Hcat. change (blit "$") with ["$"%byte]. cbn [app].
    rewrite <- !app_assoc. reflexivity.
  - apply int_of_bytes_int_str.
  - rewrite length_app. simpl. lia.
  - rewrite length_app, length_ascii. simpl. lia.
  - rewrite length_app. simpl. lia.
  - exists rd'. split; [exact Hrd'|].
    rewrite drop_last_2 in Hreply. unfold decoded in Hreply.
    destruct (decode payload) as [text|] eqn:E; [|exact Hreply].
    split; [exact Hreply | now apply decode_encode].
Qed.

(** The payload [a\r\nb], in three fragments, with a reply behind it. *)
Lemma bulk_reply_decodes_utf8_witness :
  exists rd',
    concat rd' = blit "+OK"
    /\ match decode (blit "a" ++ [CR; LF] ++ blit "b") with
       | Some text =>
           _reply 8 (connect [blit "$4" ++ [CR; LF] ++ blit "a";
                              [CR]; [LF] ++ blit "b" ++ [CR; LF] ++ blit "+OK"])
           = (Return (PyStr text),
              with_reader
                (connect [blit "$4" ++ [CR; LF] ++ blit "a";
                          [CR]; [LF] ++ blit "b" ++ [CR; LF] ++ blit "+OK"])
                rd')
           /\ encode text = Some (blit "a" ++ [CR; LF] ++ blit "b")
       | None =>
           _reply 8 (connect [blit "$4" ++ [CR; LF] ++ blit "a";
                              [CR]; [LF] ++ blit "b" ++ [CR; LF] ++ blit "+OK"])
           = (Raise UnicodeDecodeError,
              with_reader
                (connect [blit "$4" ++ [CR; LF] ++ blit "a";
                          [CR]; [LF] ++ blit "b" ++ [CR; LF] ++ blit "+OK"])
                rd')
       end.
Proof.
  apply (bulk_reply_decodes_utf8 (blit "a" ++ [CR; LF] ++ blit "b")
           (blit "+OK")
           (connect [blit "$4" ++ [CR; LF] ++ blit "a";
                     [CR]; [LF] ++ blit "b" ++ [CR; LF] ++ blit "+OK"]) 8).
  - reflexivity.
  - vm_compute. lia.
  - vm_compute. lia.
Defined.

(** C2 as the specification states it fails: the one payload byte FF is
    not handed back, the decoder raises [UnicodeDecodeError]. *)
Lemma bulk_reply_arbitrary_bytes_raise :
  fst (_reply 8 (connect [blit "$1" ++ [CR; LF] ++ [z2b 0xFF] ++ [CR; LF]]))
  = Raise UnicodeDecodeError.
Proof. vm_compute. reflexivity. Qed.

(** C3.  The specification asks for a null bulk string on [$-1\r\n].
    [_reply] has no case for it: with [data_length = 1] it reads one byte
    more, the first of the next reply, and returns the empty string; when
    nothing follows, it never returns. *)
Theorem null_bulk_is_empty_string :
  _reply 8 (connect [blit "$-1" ++ [CR; LF]; blit "+OK" ++ [CR; LF]])
  = (Return (PyStr []),
     {| r := [blit "OK" ++ [CR; LF]]; w := {| pending := []; sent := [] |} |})
  /\ forall fuel,
       fst (_reply fuel (connect [blit "$-1" ++ [CR; LF]])) = OutOfFuel.
Proof.
  split; [vm_compute; reflexivity|]. intros fuel.
  apply (reply_bulk_eof _ fuel (blit "-1" ++ [CR]) [] (-1)).
  - intros [Hin|[Hin|[Hin|[]]]]; discriminate.
  - reflexivity.
  - reflexivity.
  - simpl. lia.
Qed.

(** C4.  For every integer [i], the reply [:] + the decimal text of [i]
    + [\r\n] decodes to the integer [i], whatever follows it and however
    the stream is fragmented, and the reader is left just behind it. *)
Theorem integer_reply_decodes (i : Z) (rest : bytes) (self : Client)
        (fuel : nat) :
  concat (r self) = blit ":" ++ ascii (int_str i) ++ [CR; LF] ++ rest ->
  (length (int_str i) + 1 < fuel)%nat ->
  exists rd',
    concat rd' = rest
    /\ _reply fuel self = (Return (PyInt i), with_reader self rd').
Proof.
  intros Hcat Hfuel.
  destruct (reply_integer self fuel (ascii (int_str i) ++ [CR]) rest)
    as (rd' & Hrd' & Hreply).
  - apply length_line_no_LF.
  - rewrite Hcat. change (blit ":") with [":"%byte]. cbn [app].
    rewrite <- !app_assoc. reflexivity.
  - rewrite length_app, length_ascii. simpl. lia.
  - exists rd'. split; [exact Hrd'|]. rewrite Hreply. unfold decoded.
    rewrite (encode_decode_app (int_str i) (ascii (int_str i)) [CR])
      by (apply encode_ascii, ascii_weaken, int_str_ascii).
    change (decode [CR]) with (Some [13]). cbn [option_map].
    now rewrite int_of_str_int_str.
Qed.

(** The reply [:-42\r\n], in three fragments, with a reply behind it. *)
Lemma integer_reply_decodes_witness :
  exists rd',
    concat rd' = blit "+OK"
    /\ _reply 8 (connect [blit ":-4"; blit "2" ++ [CR]; [LF] ++ blit "+OK"])
       = (Return (PyInt (-42)),
          with_reader
            (connect [blit ":-4"; blit "2" ++ [CR]; [LF] ++ blit "+OK"]) rd').
Proof.
  apply (integer_reply_decodes (-42) (blit "+OK")
           (connect [blit ":-4"; blit "2" ++ [CR]; [LF] ++ blit "+OK"]) 8).
  - reflexivity.
  - vm_compute. lia.
Defined.

(** C5.  The specification asks for the bytes before [\r\n].  [_reply]
    cuts one byte, the LF, off the line: the CR stays in the text, and
    [+OK\r\n] decodes to ["OK\r"]. *)
Theorem simple_string_keeps_CR :
  fst (_reply 8 (connect [blit "+OK" ++ [CR; LF]]))
  = Return (PyStr (lit "OK" ++ [13])).
Proof. vm_compute. reflexivity. Qed.

(** C6, as amended.  An error reply [-<message>\r\n] makes [_reply]
    raise the plain [Exception], the class it also raises for an unknown
    tag, with a text that starts with [<message>]; the reply's bytes and
    no others are consumed and the writer is untouched, so the
    connection can be used again. *)
Theorem error_reply_raises_exception (message : str) (bs rest : bytes)
        (self : Client) (fuel : nat) :
  encode message = Some bs ->
  ~ In 10 message ->
  concat (r self) = blit "-" ++ bs ++ [CR; LF] ++ rest ->
  (length bs + 1 < fuel)%nat ->
  exists tail rd',
    concat rd' = rest
    /\ _reply fuel self
       = (Raise (Exception (message ++ tail)), with_reader self rd')
    /\ type_name (Exception (message ++ tail)) = "Exception"%string.
Proof.
  intros Henc Hnl Hcat Hfuel.
  destruct (reply_error self fuel (bs ++ [CR]) rest) as (rd' & Hrd' & Hreply).
  - intros Hin. apply in_app_or in Hin as [Hin|[Hin|[]]]; [|discriminate].
    now apply (encode_no_LF message bs Henc Hnl).
  - rewrite Hcat. change (blit "-") with ["-"%byte]. cbn [app].
    rewrite <- !app_assoc. reflexivity.
  - rewrite length_app. simpl. lia.
  - exists [13], rd'. split; [exact Hrd'|]. split; [|reflexivity].
    rewrite Hreply. unfold decoded.
    rewrite (encode_decode_app message bs [CR] Henc).
    reflexivity.
Qed.

(** The error reply of the specification, in two fragments. *)
Lemma error_reply_raises_exception_witness :
  exists tail rd',
    concat rd' = blit ":1" ++ [CR; LF]
    /\ _reply 24 (connect [blit "-ERR some"; blit " message" ++ [CR; LF]
                                             ++ blit ":1" ++ [CR; LF]])
       = (Raise (Exception (lit "ERR some message" ++ tail)),
          with_reader
            (connect [blit "-ERR some"; blit " message" ++ [CR; LF]
                                        ++ blit ":1" ++ [CR; LF]]) rd')
    /\ type_name (Exception (lit "ERR some message" ++ tail))
       = "Exception"%string.
Proof.
  apply (error_reply_raises_exception (lit "ERR some message")
           (blit "ERR some message") (blit ":1" ++ [CR; LF])
           (connect [blit "-ERR some"; blit " message" ++ [CR; LF]
                                       ++ blit ":1" ++ [CR; LF]]) 24).
  - reflexivity.
  - vm_compute. intuition discriminate.
  - reflexivity.
  - vm_compute. lia.
Defined.

(** C6 as the specification states it fails: the error reply and the
    unknown tag both end in an exception of the one class [Exception],
    which no handler can tell apart by type. *)
Lemma error_reply_is_untyped :
  option_map type_name
    match fst (_reply 24 (connect [blit "-ERR some message" ++ [CR; LF]])) with
    | Raise e => Some e
    | _ => None
    end
  = Some "Exception"%string
  /\ option_map type_name
       match fst (_reply 24 (connect [blit "?"])) with
       | Raise e => Some e
       | _ => None
       end
     = Some "Exception"%string.
Proof. vm_compute. split; reflexivity. Qed.

(** C7, as amended.  For a reply that starts with one of the four tags
    [: - + $] (a bulk string with a length of 0 or more), [_reply]
    consumes the bytes of that reply and no others, whether it returns
    or raises, and leaves the writer alone.  On any other tag it raises
    after it has consumed the tag and the snippet: the first 100 bytes of
    the fragment at hand behind the tag, or all of that fragment when it
    holds fewer, no byte less and no byte more. *)
Theorem reply_consumes_its_frame :
  (forall (frame rest : bytes) (self : Client) (fuel : nat),
      resp_frame frame ->
      concat (r self) = frame ++ rest ->
      (length frame <= fuel)%nat ->
      fst (_reply fuel self) <> OutOfFuel
      /\ concat (r (snd (_reply fuel self))) = rest
      /\ w (snd (_reply fuel self)) = w self)
  /\ (forall (tag : byte) (following : bytes) (self : Client) (fuel : nat),
         ~ In tag (blit ":-$+") ->
         concat (r self) = tag :: following ->
         exists msg e,
           msg = firstn 100 (at_hand (snd (read 1 (r self))))
           /\ (length msg <= 100)%nat
           /\ following = msg ++ concat (r (snd (_reply fuel self)))
           /\ fst (_reply fuel self) = Raise e).
Proof.
  split.
  - intros frame rest self fuel Hframe Hcat Hfuel.
    destruct (reply_frame frame Hframe) as (res & Hres & Hall).
    destruct (Hall rest self fuel Hcat Hfuel) as (rd' & Hrd' & ->).
    repeat split; assumption.
  - intros tag following self fuel Htag Hcat.
    destruct (read_one _ _ _ Hcat) as (rd1 & Hread & Hrd1).
    destruct (read_prefix 100 rd1) as (Happ & Hlen & _).
    destruct (read_at_hand 100 rd1 ltac:(lia)) as [Hmsg _].
    rewrite Hread. cbn [snd].
    destruct (read 100 rd1) as [msg rd2] eqn:E. cbn [fst snd] in *.
    assert (Hreply : _reply fuel self
                     = (decoded msg (fun text =>
                          Raise (Exception (lit "Unkown tag: "
                                            ++ bytes_repr [tag]
                                            ++ lit ", msg: " ++ text))),
                        with_reader self rd2)).
    { unfold _reply, bind. rewrite (reader_read_eq _ _ _ _ Hread).
      rewrite !bytes_eqb_neq by (intros [= ->]; apply Htag; simpl; tauto).
      rewrite (reader_read_eq 100 (with_reader self rd1) msg rd2) by exact E.
      unfold decoded. destruct (decode msg); reflexivity. }
    rewrite Hreply. cbn [fst snd with_reader r]. exists msg.
    unfold decoded. destruct (decode msg); eexists;
      (split; [exact Hmsg | split; [exact Hlen | split;
         [now rewrite Happ, Hrd1 | reflexivity]]]).
Qed.

(** A rejected integer reply, and an unknown tag whose fragment ends
    inside the line that it starts. *)
Lemma reply_consumes_its_frame_witness :
  (fst (_reply 8 (connect [blit ":x"; [LF] ++ blit "+OK" ++ [CR; LF]]))
   <> OutOfFuel
   /\ concat (r (snd (_reply 8 (connect [blit ":x"; [LF] ++ blit "+OK"
                                                          ++ [CR; LF]]))))
      = blit "+OK" ++ [CR; LF]
   /\ w (snd (_reply 8 (connect [blit ":x"; [LF] ++ blit "+OK" ++ [CR; LF]])))
      = w (connect [blit ":x"; [LF] ++ blit "+OK" ++ [CR; LF]]))
  /\ exists msg e,
       msg = firstn 100
               (at_hand (snd (read 1 (r (connect [blit "?oo";
                                                   blit "ps" ++ [CR; LF]])))))
       /\ (length msg <= 100)%nat
       /\ blit "oops" ++ [CR; LF]
          = msg ++ concat (r (snd (_reply 8 (connect [blit "?oo";
                                                      blit "ps" ++ [CR; LF]]))))
       /\ fst (_reply 8 (connect [blit "?oo"; blit "ps" ++ [CR; LF]]))
          = Raise e.
Proof.
  split.
  - apply (proj1 reply_consumes_its_frame (blit ":x" ++ [LF])
             (blit "+OK" ++ [CR; LF])
             (connect [blit ":x"; [LF] ++ blit "+OK" ++ [CR; LF]]) 8%nat).
    + apply (frame_line ":"%byte (blit "x")).
      * simpl. tauto.
      * simpl. intuition discriminate.
    + reflexivity.
    + simpl. lia.
  - apply (proj2 reply_consumes_its_frame "?"%byte (blit "oops" ++ [CR; LF])
             (connect [blit "?oo"; blit "ps" ++ [CR; LF]]) 8%nat).
    + simpl. intuition discriminate.
    + reflexivity.
Defined.

(** C7 as the specification states it fails on a rejected reply: after
    the unknown tag [?] the decoder takes whatever the fragment holds.
    In one fragment it swallows the rejected line and the reply [+OK]
    behind it; cut after two bytes, it stops inside the rejected line. *)
Lemma unknown_tag_consumption_follows_fragments :
  concat (r (snd (_reply 8 (connect [blit "?oops" ++ [CR; LF]
                                     ++ blit "+OK" ++ [CR; LF]]))))
  = []
  /\ concat (r (snd (_reply 8 (connect [blit "?o"; blit "ops" ++ [CR; LF]
                                        ++ blit "+OK" ++ [CR; LF]]))))
     = blit "ops" ++ [CR; LF] ++ blit "+OK" ++ [CR; LF].
Proof. vm_compute. split; reflexivity. Qed.

(** C8.  The specification asks that decoding end with an error when
    the stream is closed inside a reply.  The two read loops of [_reply]
    do not test for the empty result that [read] gives at the end of the
    stream: with the stream closed after [:12], or inside the payload of
    a bulk string, [_reply] neither raises nor returns, whatever the
    fuel.  (Closed before the tag, the stream does make it raise at
    once, as the empty tag is no known tag: see X2.) *)
Lemma closed_stream_never_fails :
  (forall fuel, fst (_reply fuel (connect [blit ":12"])) = OutOfFuel)
  /\ (forall fuel,
         fst (_reply fuel (connect [blit "$5" ++ [CR; LF] ++ blit "hel"]))
         = OutOfFuel).
Proof.
  split; intros fuel.
  - apply (reply_line_eof _ fuel ":"%byte (blit "12")).
    + simpl. tauto.
    + reflexivity.
    + simpl. intuition discriminate.
  - apply (reply_bulk_eof _ fuel (blit "5" ++ [CR]) (blit "hel") 5).
    + simpl. intuition discriminate.
    + reflexivity.
    + reflexivity.
    + simpl. lia.
Qed.

(** C9, as amended.  [get], [set] and [incr] do not go through [send]:
    each formats the inline command [GET <key>\r\n],
    [SET <key> <value>\r\n] or [INCR <key>\r\n], encodes it, writes it
    behind what was written before, drains, and decodes one reply with
    the decoder [send] uses.  What they put on the wire is the inline
    text, which no call of [send] puts there. *)
Theorem helpers_write_inline_commands (fuel : nat) (key val : object)
        (self : Client) :
  let inline (command : M object) (text : str) :=
    forall data, encode text = Some data ->
      fst (command self) = fst (_reply fuel self)
      /\ r (snd (command self)) = r (snd (_reply fuel self))
      /\ w (snd (command self))
         = {| pending := [];
              sent := sent (w self) ++ pending (w self) ++ data |}
      /\ forall args,
           sent (w (snd (send fuel args self)))
           <> sent (w (snd (command self))) in
  inline (get fuel key) (lit "GET " ++ format key ++ crlf)
  /\ inline (set fuel key val)
       (lit "SET " ++ format key ++ lit " " ++ format val ++ crlf)
  /\ inline (incr fuel key) (lit "INCR " ++ format key ++ crlf).
Proof.
  cbv zeta. unfold get, set, incr.
  repeat split; try (rewrite (request_effect fuel _ data self H); reflexivity).
  - change (lit "GET ") with ([71] ++ [69; 84; 32]) in *.
    rewrite <- !app_assoc in *.
    apply (request_not_send fuel 71 _ data self); [lia | lia | exact H].
  - change (lit "SET ") with ([83] ++ [69; 84; 32]) in *.
    rewrite <- !app_assoc in *.
    apply (request_not_send fuel 83 _ data self); [lia | lia | exact H].
  - change (lit "INCR ") with ([73] ++ [78; 67; 82; 32]) in *.
    rewrite <- !app_assoc in *.
    apply (request_not_send fuel 73 _ data self); [lia | lia | exact H].
Qed.

(** [get("first")] on a fresh connection. *)
Lemma helpers_write_inline_commands_witness :
  fst (get 8 (PyStr (lit "first")) (connect [blit "$1" ++ [CR; LF];
                                             blit "1" ++ [CR; LF]]))
  = fst (_reply 8 (connect [blit "$1" ++ [CR; LF]; blit "1" ++ [CR; LF]]))
  /\ r (snd (get 8 (PyStr (lit "first"))
               (connect [blit "$1" ++ [CR; LF]; blit "1" ++ [CR; LF]])))
     = r (snd (_reply 8 (connect [blit "$1" ++ [CR; LF];
                                  blit "1" ++ [CR; LF]])))
  /\ w (snd (get 8 (PyStr (lit "first"))
               (connect [blit "$1" ++ [CR; LF]; blit "1" ++ [CR; LF]])))
     = {| pending := []; sent := [] ++ [] ++ blit "GET first" ++ [CR; LF] |}
  /\ forall args,
       sent (w (snd (send 8 args (connect [blit "$1" ++ [CR; LF];
                                           blit "1" ++ [CR; LF]]))))
       <> sent (w (snd (get 8 (PyStr (lit "first"))
                          (connect [blit "$1" ++ [CR; LF];
                                    blit "1" ++ [CR; LF]])))).
Proof.
  apply (proj1 (helpers_write_inline_commands 8 (PyStr (lit "first"))
                  (PyInt 1)
                  (connect [blit "$1" ++ [CR; LF]; blit "1" ++ [CR; LF]]))
           (blit "GET first" ++ [CR; LF])).
  reflexivity.
Defined.

(** C9 as the specification states it fails: [get("k")] writes the
    inline text, [send("GET", "k")] the multi-bulk form. *)
Lemma get_is_not_send :
  sent (w (snd (get 8 (PyStr (lit "k")) (connect [blit "$-1" ++ [CR; LF]]))))
  = blit "GET k" ++ [CR; LF]
  /\ sent (w (snd (send 8 [PyStr (lit "GET"); PyStr (lit "k")]
                     (connect [blit "$-1" ++ [CR; LF]]))))
     = blit "*2" ++ [CR; LF] ++ blit "$3" ++ [CR; LF] ++ blit "GET"
       ++ [CR; LF] ++ blit "$1" ++ [CR; LF] ++ blit "k" ++ [CR; LF].
Proof. vm_compute. split; reflexivity. Qed.

(** C10, as amended.  [send] has no check on the number of arguments:
    called with none it writes [*0\r\n] behind what was written before,
    drains, and decodes one reply. *)
Theorem send_without_arguments (fuel : nat) (self : Client) :
  send fuel [] self
  = (fst (_reply fuel self),
     {| r := r (snd (_reply fuel self));
        w := {| pending := [];
                sent := sent (w self) ++ pending (w self)
                        ++ blit "*0" ++ [CR; LF] |} |}).
Proof.
  unfold send, bind. cbn [resp_args or_raise ret].
  apply request_effect. reflexivity.
Qed.

(** C10 as the specification states it fails: the call without
    arguments puts a request on the wire and returns the reply. *)
Lemma send_without_arguments_writes :
  send 8 [] (connect [blit "+OK" ++ [CR; LF]])
  = (Return (PyStr (lit "OK" ++ [13])),
     {| r := []; w := {| pending := []; sent := blit "*0" ++ [CR; LF] |} |}).
Proof. vm_compute. reflexivity. Qed.

(** * Further properties of the code *)

(** ** Lemmas *)

Section NumericFields.

Lemma skip_spaces_incl (s : list Z) (c : Z) :
  In c (skip_spaces s) -> In c s.
Proof.
  induction s as [|x s IH]; simpl; [tauto|].
  destruct (Py_ISSPACE x); simpl; tauto.
Qed.

Lemma scan_digits_needs_digit (s : list Z) :
  forall (prev_us : bool) (acc : Z),
    (forall c, In c s -> is_digit c = false) ->
    scan_digits prev_us false acc s = None.
Proof.
  induction s as [|c s IH]; intros prev_us acc Hs; cbn [scan_digits].
  - now destruct prev_us.
  - rewrite (Hs c) by now left.
    destruct (c =? 95); destruct prev_us; try reflexivity;
      apply IH; intros x Hx; apply Hs; now right.
Qed.

(** [int] of a text with no digit in it fails. *)
Lemma PyLong_FromString_needs_digit (s : list Z) :
  (forall c, In c s -> is_digit c = false) -> PyLong_FromString s = None.
Proof.
  intros Hs. unfold PyLong_FromString.
  assert (Hs1 : forall c, In c (skip_spaces s) -> is_digit c = false)
    by (intros c Hc; apply Hs, skip_spaces_incl, Hc).
  destruct (skip_spaces s) as [|c t]; [reflexivity|].
  assert (Ht : forall x, In x t -> is_digit x = false)
    by (intros x Hx; apply Hs1; now right).
  destruct (c =? 43); [|destruct (c =? 45)]; cbv beta iota zeta;
    match goal with
    | |- context [scan_digits false false 0 ?s2] =>
        rewrite (scan_digits_needs_digit s2) by assumption
    end;
    match goal with
    | |- (if ?b then _ else _) = _ => destruct b; reflexivity
    end.
Qed.

Lemma decode_ascii_bytes (bs : bytes) :
  Forall (fun b => b2z b < 128) bs -> decode bs = Some (map b2z bs).
Proof.
  induction 1 as [|b bs Hb _ IH]; [reflexivity|].
  cbn [decode map]. destruct (Z.ltb_spec (b2z b) 128); [|lia].
  now rewrite IH.
Qed.

Lemma int_of_str_needs_digit (s : str) :
  Forall (fun c => c < 128 /\ is_digit c = false) s -> int_of_str s = None.
Proof.
  intros Hs. unfold int_of_str.
  assert (Hcases : to_ascii_digits s = None \/ to_ascii_digits s = Some s).
  { induction Hs as [|c s [Hc _] _ IH]; [now right|].
    cbn [to_ascii_digits]. unfold to_ascii_digit.
    destruct (Z.ltb_spec c 127).
    - destruct IH as [-> | ->]; [now left | now right].
    - assert (c = 127) as -> by lia. now left. }
  destruct Hcases as [-> | ->]; [reflexivity|].
  apply PyLong_FromString_needs_digit. intros c Hc.
  rewrite Forall_forall in Hs. now apply Hs.
Qed.

End NumericFields.

Section MoreReplies.

Variables (self : Client) (fuel : nat).

(** A bulk string whose payload is followed by any two bytes. *)
Lemma reply_bulk_payload (payload rest : bytes) (t1 t2 : byte) :
  concat (r self)
  = blit "$" ++ ascii (int_str (Z.of_nat (length payload))) ++ [CR; LF]
    ++ payload ++ [t1; t2] ++ rest ->
  (length (int_str (Z.of_nat (length payload))) + 1 < fuel)%nat ->
  (length payload + 2 <= fuel)%nat ->
  exists rd',
    concat rd' = rest
    /\ _reply fuel self
       = (decoded payload (fun text => Return (PyStr text)),
          with_reader self rd').
Proof.
  intros Hcat Hfuel Hfuel'.
  set (n := Z.of_nat (length payload)) in *.
  destruct (reply_bulk self fuel (ascii (int_str n) ++ [CR])
              (payload ++ [t1; t2]) rest n) as (rd' & Hrd' & Hreply).
  - apply length_line_no_LF.
  - rewrite Hcat. change (blit "$") with ["$"%byte]. cbn [app].
    rewrite <- !app_assoc. reflexivity.
  - apply int_of_bytes_int_str.
  - rewrite length_app. simpl. lia.
  - rewrite length_app, length_ascii. simpl. lia.
  - rewrite length_app. simpl. lia.
  - exists rd'. split; [exact Hrd'|]. now rewrite drop_last_2 in Hreply.
Qed.

End MoreReplies.

(** ** The decoder *)

(** X1.  [_reply] only reads: whatever the stream holds and however long
    it runs, it leaves the writer as it found it, and what it returns and
    how far it reads do not depend on what was written. *)
Theorem reply_never_touches_writer (fuel : nat) (self : Client)
        (wr : StreamWriter) :
  w (snd (_reply fuel self)) = w self
  /\ _reply fuel {| r := r self; w := wr |}
     = (fst (_reply fuel self), {| r := r (snd (_reply fuel self)); w := wr |}).
Proof.
  split; [|apply reader_only_reply].
  destruct self as [rd wr0].
  pose proof (reader_only_reply fuel {| r := rd; w := wr0 |} wr0) as H.
  cbn [r] in H. rewrite H at 1. reflexivity.
Qed.

(** X2.  On a stream that is closed before the first byte of a reply,
    [_reply] does not wait: the empty tag is no known tag, and it raises
    [Exception("Unkown tag: b'', msg: ")] at once, whatever the fuel. *)
Theorem reply_on_closed_stream (fuel : nat) (self : Client) :
  concat (r self) = [] ->
  exists rd',
    concat rd' = []
    /\ _reply fuel self
       = (Raise (Exception (lit "Unkown tag: b''" ++ lit ", msg: ")),
          with_reader self rd').
Proof.
  intros Hcat.
  destruct (read_eof 1 _ Hcat) as (rd1 & Hread & Hrd1).
  destruct (read_eof 100 _ Hrd1) as (rd2 & Hmsg & Hrd2).
  exists rd2. split; [exact Hrd2|].
  unfold _reply, bind. rewrite (reader_read_eq _ _ _ _ Hread).
  change (bytes_eqb [] (blit ":")) with false.
  change (bytes_eqb [] (blit "-")) with false.
  change (bytes_eqb [] (blit "$")) with false.
  change (bytes_eqb [] (blit "+")) with false.
  cbv beta iota.
  rewrite (reader_read_eq 100 (with_reader self rd1) [] rd2) by exact Hmsg.
  reflexivity.
Qed.

(** A connection the server closed without a word, seen as two empty
    fragments. *)
Lemma reply_on_closed_stream_witness :
  exists rd',
    concat rd' = []
    /\ _reply 0 (connect [[]; []])
       = (Raise (Exception (lit "Unkown tag: b''" ++ lit ", msg: ")),
          with_reader (connect [[]; []]) rd').
Proof.
  apply (reply_on_closed_stream 0 (connect [[]; []])). reflexivity.
Defined.

(** X3.  On a tag other than [: - $ +] the exception names the tag, as
    [repr] shows a [bytes] of that one byte, and the snippet: the text of
    up to 100 of the bytes that follow, at least one when any follows.
    When the snippet is not valid UTF-8, for instance because it ends
    inside a character, [UnicodeDecodeError] is raised in its place. *)
Theorem unknown_tag_names_tag_and_snippet (tag : byte) (following : bytes)
        (self : Client) (fuel : nat) :
  concat (r self) = tag :: following ->
  ~ In tag (blit ":-$+") ->
  exists msg rd',
    following = msg ++ concat rd'
    /\ (length msg <= 100)%nat
    /\ (following <> [] -> msg <> [])
    /\ _reply fuel self
       = (match decode msg with
          | Some text =>
              Raise (Exception (lit "Unkown tag: " ++ bytes_repr [tag]
                                ++ lit ", msg: " ++ text))
          | None => Raise UnicodeDecodeError
          end,
          with_reader self rd').
Proof.
  intros Hcat Htag.
  destruct (read_one _ _ _ Hcat) as (rd1 & Hread & Hrd1).
  destruct (read_prefix 100 rd1) as (Happ & Hlen & Hsome).
  destruct (read 100 rd1) as [msg rd2] eqn:Hmsg. simpl in Happ, Hlen, Hsome.
  exists msg, rd2. rewrite Hrd1 in *.
  split; [now rewrite Happ|]. split; [exact Hlen|].
  split; [intros Hne; apply Hsome; [lia | exact Hne]|].
  unfold _reply, bind. rewrite (reader_read_eq _ _ _ _ Hread).
  rewrite !bytes_eqb_neq by (intros [= ->]; apply Htag; simpl; tauto).
  rewrite (reader_read_eq 100 (with_reader self rd1) msg rd2) by exact Hmsg.
  destruct (decode msg); reflexivity.
Qed.

(** The tag [*] of an array, which the decoder does not know. *)
Lemma unknown_tag_names_tag_and_snippet_witness :
  exists msg rd',
    blit "2" ++ [CR; LF] = msg ++ concat rd'
    /\ (length msg <= 100)%nat
    /\ (blit "2" ++ [CR; LF] <> [] -> msg <> [])
    /\ _reply 4 (connect [blit "*2" ++ [CR; LF]])
       = (match decode msg with
          | Some text =>
              Raise (Exception (lit "Unkown tag: " ++ bytes_repr [x2a]
                                ++ lit ", msg: " ++ text))
          | None => Raise UnicodeDecodeError
          end,
          with_reader (connect [blit "*2" ++ [CR; LF]]) rd').
Proof.
  apply (unknown_tag_names_tag_and_snippet x2a (blit "2" ++ [CR; LF])
           (connect [blit "*2" ++ [CR; LF]]) 4).
  - reflexivity.
  - simpl. intuition discriminate.
Defined.

(** X4.  A bulk string with a length of -2 or less is the empty string:
    [data_length] is not positive, the payload loop is not entered, and
    nothing behind the length line is read. *)
Theorem bulk_negative_length (n : Z) (rest : bytes) (self : Client)
        (fuel : nat) :
  n <= -2 ->
  concat (r self) = blit "$" ++ ascii (int_str n) ++ [CR; LF] ++ rest ->
  (length (int_str n) + 1 < fuel)%nat ->
  exists rd',
    concat rd' = rest
    /\ _reply fuel self = (Return (PyStr []), with_reader self rd').
Proof.
  intros Hn Hcat Hfuel.
  destruct (reply_bulk self fuel (ascii (int_str n) ++ [CR]) [] rest n)
    as (rd' & Hrd' & Hreply).
  - apply length_line_no_LF.
  - rewrite Hcat. change (blit "$") with ["$"%byte]. cbn [app].
    rewrite <- !app_assoc. reflexivity.
  - apply int_of_bytes_int_str.
  - simpl. lia.
  - rewrite length_app, length_ascii. simpl. lia.
  - simpl. lia.
  - exists rd'. split; [exact Hrd' | exact Hreply].
Qed.

(** The length -5, with a reply behind it. *)
Lemma bulk_negative_length_witness :
  exists rd',
    concat rd' = blit ":1" ++ [CR; LF]
    /\ _reply 8 (connect [blit "$-5"; [CR; LF] ++ blit ":1" ++ [CR; LF]])
       = (Return (PyStr []),
          with_reader
            (connect [blit "$-5"; [CR; LF] ++ blit ":1" ++ [CR; LF]]) rd').
Proof.
  apply (bulk_negative_length (-5) (blit ":1" ++ [CR; LF])
           (connect [blit "$-5"; [CR; LF] ++ blit ":1" ++ [CR; LF]]) 8).
  - lia.
  - reflexivity.
  - vm_compute. lia.
Defined.

(** X5.  A numeric field with no digit in it is never read as a number:
    an integer reply or a bulk length whose line is ASCII without a
    digit (an empty line, a word, a lone sign) makes [_reply] raise
    [ValueError], after it has read that line and nothing more. *)
Theorem numeric_field_without_digit (tag : byte) (line rest : bytes)
        (self : Client) (fuel : nat) :
  tag = ":"%byte \/ tag = "$"%byte ->
  Forall (fun b => b2z b < 128 /\ is_digit (b2z b) = false) line ->
  ~ In LF line ->
  concat (r self) = tag :: line ++ LF :: rest ->
  (length line < fuel)%nat ->
  exists rd',
    concat rd' = rest
    /\ _reply fuel self = (Raise ValueError, with_reader self rd').
Proof.
  intros Htag Hline Hnl Hcat Hfuel.
  assert (Hascii : Forall (fun b => b2z b < 128) line)
    by (eapply Forall_impl; [|exact Hline]; intros b [H _]; exact H).
  destruct Htag as [-> | ->].
  - destruct (reply_integer self fuel line rest Hnl Hcat Hfuel)
      as (rd' & Hrd' & Hreply).
    exists rd'. split; [exact Hrd'|]. rewrite Hreply. unfold decoded.
    rewrite (decode_ascii_bytes line Hascii), int_of_str_needs_digit;
      [reflexivity|].
    apply Forall_map. exact Hline.
  - destruct (read_one _ _ _ Hcat) as (rd1 & Hread & Hrd1).
    destruct (read_line_ok _ [] (with_reader self rd1) _ fuel Hnl Hrd1 Hfuel)
      as (rd2 & Hloop & Hrd2).
    exists rd2. split; [exact Hrd2|].
    unfold _reply, bind. rewrite (reader_read_eq _ _ _ _ Hread).
    change (bytes_eqb ["$"%byte] (blit ":")) with false.
    change (bytes_eqb ["$"%byte] (blit "-")) with false.
    change (bytes_eqb ["$"%byte] (blit "$")) with true.
    cbv beta iota. rewrite Hloop. cbn [app]. rewrite drop_last_1.
    unfold int_of_bytes. rewrite PyLong_FromString_needs_digit; [reflexivity|].
    intros c Hc. apply in_map_iff in Hc as (b & <- & Hb).
    rewrite Forall_forall in Hline. now apply Hline.
Qed.

(** The integer reply [:abc\r\n]. *)
Lemma numeric_field_without_digit_witness :
  exists rd',
    concat rd' = blit "+OK"
    /\ _reply 8 (connect [blit ":ab"; blit "c" ++ [CR; LF] ++ blit "+OK"])
       = (Raise ValueError,
          with_reader
            (connect [blit ":ab"; blit "c" ++ [CR; LF] ++ blit "+OK"]) rd').
Proof.
  apply (numeric_field_without_digit ":"%byte (blit "abc" ++ [CR])
           (blit "+OK")
           (connect [blit ":ab"; blit "c" ++ [CR; LF] ++ blit "+OK"]) 8).
  - now left.
  - repeat constructor.
  - simpl. intuition discriminate.
  - reflexivity.
  - simpl. lia.
Defined.

(** X6.  The two bytes behind the payload of a bulk string are dropped
    unseen: whatever they are, the reply decodes to the text of the
    payload (or raises [UnicodeDecodeError] when the payload is not
    UTF-8), and the reader is left behind those two bytes. *)
Theorem bulk_terminator_is_not_checked (payload rest : bytes) (t1 t2 : byte)
        (self : Client) (fuel : nat) :
  concat (r self)
  = blit "$" ++ ascii (int_str (Z.of_nat (length payload))) ++ [CR; LF]
    ++ payload ++ [t1; t2] ++ rest ->
  (length (int_str (Z.of_nat (length payload))) + 1 < fuel)%nat ->
  (length payload + 2 <= fuel)%nat ->
  exists rd',
    concat rd' = rest
    /\ _reply fuel self
       = (match decode payload with
          | Some text => Return (PyStr text)
          | None => Raise UnicodeDecodeError
          end,
          with_reader self rd').
Proof.
  intros Hcat Hfuel Hfuel'.
  apply (reply_bulk_payload self fuel payload rest t1 t2 Hcat Hfuel Hfuel').
Qed.

(** The payload [hi] followed by [XY] where CR LF should stand. *)
Lemma bulk_terminator_is_not_checked_witness :
  exists rd',
    concat rd' = blit ":1" ++ [CR; LF]
    /\ _reply 8 (connect [blit "$2" ++ [CR; LF] ++ blit "hiXY:1" ++ [CR; LF]])
       = (match decode (blit "hi") with
          | Some text => Return (PyStr text)
          | None => Raise UnicodeDecodeError
          end,
          with_reader
            (connect [blit "$2" ++ [CR; LF] ++ blit "hiXY:1" ++ [CR; LF]])
            rd').
Proof.
  apply (bulk_terminator_is_not_checked (blit "hi") (blit ":1" ++ [CR; LF])
           "X"%byte "Y"%byte
           (connect [blit "$2" ++ [CR; LF] ++ blit "hiXY:1" ++ [CR; LF]]) 8).
  - reflexivity.
  - vm_compute. lia.
  - vm_compute. lia.
Defined.

(** X7.  Two replies of the forms [resp_frame] describes (a line with
    the tag [:], [-] or [+], or a bulk string with a length of 0 or
    more) that follow each other on the stream are decoded one per call,
    in order: after the first call, whether it returned or raised, the
    second call decodes the second reply as if it stood alone, and
    leaves the reader behind it.  The null bulk string is no such reply:
    the call that decodes [$-1\r\n] takes one byte of what follows with
    it, so that the next call starts at the second byte of the next
    reply.  (Nor is a reply with any other tag: see C7 for what is
    consumed then.) *)
Theorem replies_decode_in_sequence :
  (forall (first second rest : bytes) (self : Client) (fuel : nat),
      resp_frame first -> resp_frame second ->
      concat (r self) = first ++ second ++ rest ->
      (length first <= fuel)%nat -> (length second <= fuel)%nat ->
      fst (_reply fuel self) = fst (_reply (length first) (connect [first]))
      /\ fst (_reply fuel (snd (_reply fuel self)))
         = fst (_reply (length second) (connect [second]))
      /\ concat (r (snd (_reply fuel (snd (_reply fuel self))))) = rest)
  /\ (forall (b : byte) (following : bytes) (self : Client) (fuel : nat),
         concat (r self) = blit "$-1" ++ [CR; LF] ++ b :: following ->
         (3 < fuel)%nat ->
         fst (_reply fuel self) = Return (PyStr [])
         /\ concat (r (snd (_reply fuel self))) = following).
Proof.
  split.
  - intros first second rest self fuel H1 H2 Hcat Hf1 Hf2.
    destruct (reply_frame first H1) as (res1 & _ & Hall1).
    destruct (reply_frame second H2) as (res2 & _ & Hall2).
    destruct (Hall1 (second ++ rest) self fuel Hcat Hf1) as (rd1 & Hrd1 & E1).
    destruct (Hall1 [] (connect [first]) (length first)) as (rd1' & _ & E1');
      [reflexivity | lia |].
    destruct (Hall2 [] (connect [second]) (length second))
      as (rd2' & _ & E2'); [reflexivity | lia |].
    rewrite E1, E1', E2'. cbn [fst snd].
    destruct (Hall2 rest (with_reader self rd1) fuel Hrd1 Hf2)
      as (rd2 & Hrd2 & E2).
    rewrite E2. cbn [fst snd]. repeat split. exact Hrd2.
  - intros b following self fuel Hcat Hfuel.
    destruct (reply_null_bulk b following self fuel Hcat Hfuel)
      as (rd' & Hrd' & ->).
    split; [reflexivity | exact Hrd'].
Qed.

(** An error reply and an integer reply in awkward fragments, and a
    null bulk string in front of the reply [+OK]. *)
Lemma replies_decode_in_sequence_witness :
  (fst (_reply 8 (connect [blit "-no"; [CR; LF] ++ blit ":";
                           blit "7" ++ [CR; LF] ++ blit "+"]))
   = fst (_reply (length (blit "-no" ++ [CR; LF]))
            (connect [blit "-no" ++ [CR; LF]]))
   /\ fst (_reply 8
             (snd (_reply 8 (connect [blit "-no"; [CR; LF] ++ blit ":";
                                      blit "7" ++ [CR; LF] ++ blit "+"]))))
      = fst (_reply (length (blit ":7" ++ [CR; LF]))
               (connect [blit ":7" ++ [CR; LF]]))
   /\ concat (r (snd (_reply 8
                        (snd (_reply 8 (connect [blit "-no";
                                                 [CR; LF] ++ blit ":";
                                                 blit "7" ++ [CR; LF]
                                                 ++ blit "+"]))))))
      = blit "+")
  /\ fst (_reply 8 (connect [blit "$-1" ++ [CR; LF];
                             blit "+OK" ++ [CR; LF]]))
     = Return (PyStr [])
  /\ concat (r (snd (_reply 8 (connect [blit "$-1" ++ [CR; LF];
                                        blit "+OK" ++ [CR; LF]]))))
     = blit "OK" ++ [CR; LF].
Proof.
  split.
  - apply (proj1 replies_decode_in_sequence (blit "-no" ++ [CR; LF])
             (blit ":7" ++ [CR; LF]) (blit "+")
             (connect [blit "-no"; [CR; LF] ++ blit ":";
                       blit "7" ++ [CR; LF] ++ blit "+"]) 8%nat).
    + apply (frame_line "-"%byte (blit "no" ++ [CR])).
      * simpl. tauto.
      * simpl. intuition discriminate.
    + apply (frame_line ":"%byte (blit "7" ++ [CR])).
      * simpl. tauto.
      * simpl. intuition discriminate.
    + reflexivity.
    + simpl. lia.
    + simpl. lia.
  - apply (proj2 replies_decode_in_sequence "+"%byte
             (blit "OK" ++ [CR; LF])
             (connect [blit "$-1" ++ [CR; LF]; blit "+OK" ++ [CR; LF]])
             8%nat).
    + reflexivity.
    + lia.
Defined.

(** X18.  Short reads and closed streams, for the replies [resp_frame]
    describes (the tags [: - +], and [$] with a length of 0 or more).  A
    short read is never an error: such a reply decodes, in however many
    fragments it arrives, to what it decodes to when it arrives in one
    piece.  Cut short by the end of the stream anywhere behind its first
    byte, it makes [_reply] run without end: no fuel is enough for it to
    return or to raise. *)
Theorem short_reads_and_closed_streams :
  (forall (frame rest : bytes) (self : Client) (fuel : nat),
      resp_frame frame ->
      concat (r self) = frame ++ rest ->
      (length frame <= fuel)%nat ->
      fst (_reply fuel self) = fst (_reply (length frame) (connect [frame]))
      /\ fst (_reply fuel self) <> OutOfFuel)
  /\ (forall (frame partial missing : bytes) (self : Client) (fuel : nat),
         resp_frame frame ->
         frame = partial ++ missing ->
         partial <> [] -> missing <> [] ->
         concat (r self) = partial ->
         fst (_reply fuel self) = OutOfFuel).
Proof.
  split.
  - intros frame rest self fuel Hframe Hcat Hfuel.
    destruct (reply_frame frame Hframe) as (res & Hres & Hall).
    destruct (Hall rest self fuel Hcat Hfuel) as (rd' & _ & ->).
    destruct (Hall [] (connect [frame]) (length frame)) as (rd'' & _ & ->);
      [reflexivity | lia |].
    split; [reflexivity | exact Hres].
  - intros frame partial missing self fuel.
    apply reply_cut_short.
Qed.

(** The bulk string [hi] in five fragments, and cut short. *)
Lemma short_reads_and_closed_streams_witness :
  (fst (_reply 9 (connect [blit "$"; blit "2" ++ [CR]; [LF] ++ blit "h";
                           blit "i" ++ [CR]; [LF] ++ blit ":1"]))
   = fst (_reply (length (blit "$2" ++ [CR; LF] ++ blit "hi" ++ [CR; LF]))
            (connect [blit "$2" ++ [CR; LF] ++ blit "hi" ++ [CR; LF]]))
   /\ fst (_reply 9 (connect [blit "$"; blit "2" ++ [CR]; [LF] ++ blit "h";
                              blit "i" ++ [CR]; [LF] ++ blit ":1"]))
      <> OutOfFuel)
  /\ fst (_reply 1000 (connect [blit "$2" ++ [CR; LF]; blit "hi"]))
     = OutOfFuel.
Proof.
  split.
  - apply (proj1 short_reads_and_closed_streams
             (blit "$2" ++ [CR; LF] ++ blit "hi" ++ [CR; LF]) (blit ":1")
             (connect [blit "$"; blit "2" ++ [CR]; [LF] ++ blit "h";
                       blit "i" ++ [CR]; [LF] ++ blit ":1"]) 9%nat).
    + apply (frame_bulk 2 (blit "hi" ++ [CR; LF])); [lia | reflexivity].
    + reflexivity.
    + simpl. lia.
  - apply (proj2 short_reads_and_closed_streams
             (blit "$2" ++ [CR; LF] ++ blit "hi" ++ [CR; LF])
             (blit "$2" ++ [CR; LF] ++ blit "hi") [CR; LF]
             (connect [blit "$2" ++ [CR; LF]; blit "hi"]) 1000%nat).
    + apply (frame_bulk 2 (blit "hi" ++ [CR; LF])); [lia | reflexivity].
    + reflexivity.
    + discriminate.
    + discriminate.
    + reflexivity.
Defined.

(** ** Lemmas on requests *)

Section Framing.

Lemma split_at_first {A : Type} (c : A) (l1 : list A) :
  forall (l2 r1 r2 : list A),
    l1 ++ c :: r1 = l2 ++ c :: r2 ->
    ~ In c l1 -> ~ In c l2 ->
    l1 = l2 /\ r1 = r2.
Proof.
  induction l1 as [|x l1 IH]; intros [|y l2] r1 r2 H H1 H2; simpl in *.
  - injection H as <-. now split.
  - injection H as <- _. exfalso. apply H2. now left.
  - injection H as -> _. exfalso. apply H1. now left.
  - injection H as <- H. destruct (IH l2 r1 r2 H) as [-> ->]; [tauto..|].
    now split.
Qed.

Lemma app_same_length {A : Type} (a : list A) :
  forall (b x y : list A),
    a ++ x = b ++ y -> length a = length b -> a = b /\ x = y.
Proof.
  induction a as [|h a IH]; intros [|k b] x y H Hlen; simpl in *;
    try discriminate.
  - now split.
  - injection H as <- H. injection Hlen as Hlen.
    destruct (IH b x y H Hlen) as [-> ->]. now split.
Qed.

(** The decimal text is made of digits and a minus sign. *)
Lemma int_str_chars (z : Z) :
  Forall (fun c => c = 45 \/ 48 <= c <= 57) (int_str z).
Proof.
  assert (Hdig : forall fuel n acc, 0 <= n ->
                   Forall (fun c => c = 45 \/ 48 <= c <= 57) acc ->
                   Forall (fun c => c = 45 \/ 48 <= c <= 57)
                     (digits_of fuel n acc)).
  { induction fuel as [|fuel IH]; intros n acc Hn Hacc; cbn [digits_of];
      [assumption|].
    assert (Hnew : Forall (fun c => c = 45 \/ 48 <= c <= 57)
                     ((48 + n mod 10) :: acc)).
    { constructor; [|assumption]. right.
      Z.to_euclidean_division_equations; lia. }
    destruct (n <? 10); [assumption|].
    apply IH; [Z.to_euclidean_division_equations; lia | assumption]. }
  unfold int_str, decimal. destruct (Z.ltb_spec z 0).
  - constructor; [now left|]. apply Hdig; [lia | constructor].
  - apply Hdig; [lia | constructor].
Qed.

Lemma int_str_no_CR (z : Z) : ~ In 13 (int_str z).
Proof.
  intros Hin. pose proof (int_str_chars z) as Hall.
  rewrite Forall_forall in Hall. specialize (Hall 13 Hin). lia.
Qed.

Lemma int_str_bytes_no_CR (z : Z) : ~ In CR (ascii (int_str z)).
Proof.
  unfold ascii. intros Hin. apply in_map_iff in Hin as (c & Hc & Hin).
  pose proof (int_str_chars z) as Hall.
  rewrite Forall_forall in Hall. specialize (Hall c Hin).
  apply (f_equal b2z) in Hc. rewrite b2z_z2b in Hc by lia.
  change (b2z CR) with 13 in Hc. lia.
Qed.

Lemma int_str_inj (a b : Z) : int_str a = int_str b -> a = b.
Proof.
  intros H. pose proof (PyLong_FromString_int_str a) as Ha.
  rewrite H, PyLong_FromString_int_str in Ha. now injection Ha.
Qed.

Lemma ascii_int_str_inj (a b : Z) :
  ascii (int_str a) = ascii (int_str b) -> a = b.
Proof.
  intros H. pose proof (int_of_bytes_int_str a) as Ha.
  rewrite H, int_of_bytes_int_str in Ha. now injection Ha.
Qed.

(** The announced length of an item can be read off the bytes. *)
Lemma bulk_item_split (n1 n2 : Z) (b1 b2 R1 R2 : bytes) :
  bulk_item n1 b1 ++ R1 = bulk_item n2 b2 ++ R2 ->
  n1 = n2 /\ b1 ++ [CR; LF] ++ R1 = b2 ++ [CR; LF] ++ R2.
Proof.
  unfold bulk_item. change (blit "$") with ["$"%byte]. cbn [app].
  rewrite <- !app_assoc. cbn [app]. intros [= H].
  apply split_at_first in H as [Hn Htl];
    [|apply int_str_bytes_no_CR..].
  split; [now apply ascii_int_str_inj|]. injection Htl as Htl.
  rewrite <- !app_assoc in Htl. exact Htl.
Qed.

(** The same for the request text of [send], before it is encoded. *)
Lemma text_item_split (n1 n2 : Z) (s1 s2 R1 R2 : str) :
  (lit "$" ++ int_str n1 ++ crlf ++ s1 ++ crlf) ++ R1
  = (lit "$" ++ int_str n2 ++ crlf ++ s2 ++ crlf) ++ R2 ->
  n1 = n2 /\ s1 ++ crlf ++ R1 = s2 ++ crlf ++ R2.
Proof.
  change (lit "$") with [36]. unfold crlf. cbn [app].
  rewrite <- !app_assoc. cbn [app]. intros H. injection H as H.
  apply split_at_first in H as [Hn Htl]; [|apply int_str_no_CR..].
  split; [now apply int_str_inj|]. injection Htl as Htl.
  rewrite <- !app_assoc in Htl. exact Htl.
Qed.

(** The joined elements of [send] determine the [str] arguments. *)
Lemma joined_inj (texts1 : list str) :
  forall texts2,
    flat_map (fun s => lit "$" ++ int_str (Z.of_nat (length s))
                       ++ crlf ++ s ++ crlf) texts1
    = flat_map (fun s => lit "$" ++ int_str (Z.of_nat (length s))
                         ++ crlf ++ s ++ crlf) texts2 ->
    texts1 = texts2.
Proof.
  induction texts1 as [|s1 texts1 IH]; intros [|s2 texts2];
    cbn [flat_map]; try (intros H; discriminate H); [reflexivity|].
  intros H. apply text_item_split in H as [Hn H].
  apply Nat2Z.inj in Hn.
  apply app_same_length in H as [-> H]; [|exact Hn].
  apply app_inv_head in H. now rewrite (IH texts2 H).
Qed.

Lemma encode_inj (s t : str) (d : bytes) :
  encode s = Some d -> encode t = Some d -> s = t.
Proof.
  intros Hs Ht. apply encode_decode in Hs, Ht. congruence.
Qed.

(** A text with a character that has no encoding has none. *)
Lemma encode_None_in (s : str) (c : Z) :
  In c s -> encode_char c = None -> encode s = None.
Proof.
  induction s as [|x s IH]; intros Hin Hc; [destruct Hin|].
  cbn [encode]. destruct Hin as [-> | Hin].
  - now rewrite Hc.
  - rewrite (IH Hin Hc). now destruct (encode_char x).
Qed.

Lemma surrogate_None (c : Z) : is_surrogate c = true -> encode_char c = None.
Proof.
  intros H. unfold encode_char. rewrite H.
  unfold is_surrogate in H. apply andb_prop in H as [H1 H2].
  apply Z.leb_le in H1, H2.
  destruct (Z.ltb_spec c 0); [reflexivity|].
  destruct (Z.ltb_spec c 128); [lia|]. destruct (Z.ltb_spec c 2048); [lia|].
  destruct (Z.ltb_spec c 65536); [reflexivity | lia].
Qed.

(** The request text of [send] for arguments that have an encoding has
    one. *)
Lemma send_text_encodable (texts : list str) :
  Forall (fun s => encode s <> None) texts ->
  exists data,
    encode (lit "*" ++ int_str (Z.of_nat (length texts)) ++ crlf
            ++ flat_map (fun s => lit "$" ++ int_str (Z.of_nat (length s))
                                  ++ crlf ++ s ++ crlf) texts)
    = Some data.
Proof.
  intros Hall.
  assert (Hnum : forall n, encode (int_str n) = Some (ascii (int_str n)))
    by (intros n; apply encode_ascii, ascii_weaken, int_str_ascii).
  assert (Hjoined : exists d,
             encode (flat_map (fun s => lit "$"
                       ++ int_str (Z.of_nat (length s))
                       ++ crlf ++ s ++ crlf) texts) = Some d).
  { induction Hall as [|s texts Hs _ [d IH]]; [now exists []|].
    destruct (encode s) as [b|] eqn:Eb; [|congruence].
    eexists. cbn [flat_map]. apply encode_app; [|exact IH].
    repeat (apply encode_app; [reflexivity || apply Hnum || exact Eb|]).
    reflexivity. }
  destruct Hjoined as [d Hd]. eexists.
  repeat (apply encode_app; [reflexivity || apply Hnum|]). exact Hd.
Qed.

End Framing.

(** ** The requests *)

(** X8.  For [str] arguments [send] writes the multi-bulk form of the
    arguments' bytes exactly when every argument is ASCII: there the
    number of characters it announces is the number of bytes, and one
    character beyond ASCII makes the two differ. *)
Theorem send_is_multi_bulk_iff_ascii (fuel : nat) (texts : list str)
        (encoded : list bytes) (self : Client) :
  Forall2 (fun s b => encode s = Some b) texts encoded ->
  sent (w (snd (send fuel (map PyStr texts) self)))
  = sent (w self) ++ pending (w self) ++ multi_bulk encoded
  <-> Forall (Forall (fun c => c < 128)) texts.
Proof.
  intros Hall. rewrite (send_str_wire fuel texts encoded self Hall).
  cbn [snd w sent]. unfold multi_bulk.
  rewrite <- (Forall2_length Hall).
  assert (Hitems :
    flat_map (fun p : str * bytes => let '(s, b) := p in
                bulk_item (Z.of_nat (length s)) b) (combine texts encoded)
    = flat_map (fun arg => bulk_item (Z.of_nat (length arg)) arg) encoded
    <-> Forall (Forall (fun c => c < 128)) texts).
  { induction Hall as [|s b texts encoded Hs _ IH]; cbn [combine flat_map].
    - split; [constructor | reflexivity].
    - destruct (encode_length s b Hs) as [_ Hlen]. split.
      + intros H. apply bulk_item_split in H as [Hn H].
        apply Nat2Z.inj in Hn. do 2 apply app_inv_head in H.
        constructor; [apply Hlen; congruence | now apply IH].
      + intros H. inversion H as [|? ? Hs' Htl]; subst.
        apply Hlen in Hs'. rewrite Hs'. f_equal. now apply IH. }
  split.
  - intros H. do 5 apply app_inv_head in H. apply Hitems. exact H.
  - intros H. apply Hitems in H. do 5 f_equal. exact H.
Qed.

(** [send("GET", "first")]: both arguments are ASCII. *)
Lemma send_is_multi_bulk_iff_ascii_witness :
  sent (w (snd (send 8 (map PyStr [lit "GET"; lit "first"])
                  (connect [blit "$-1" ++ [CR; LF]]))))
  = sent (w (connect [blit "$-1" ++ [CR; LF]]))
    ++ pending (w (connect [blit "$-1" ++ [CR; LF]]))
    ++ multi_bulk [blit "GET"; blit "first"]
  <-> Forall (Forall (fun c => c < 128)) [lit "GET"; lit "first"].
Proof.
  apply (send_is_multi_bulk_iff_ascii 8 [lit "GET"; lit "first"]
           [blit "GET"; blit "first"] (connect [blit "$-1" ++ [CR; LF]])).
  repeat constructor.
Defined.

(** X9.  The request of [send] determines its [str] arguments: two
    calls with arguments that have an encoding, which put the same bytes
    on the wire, were given the same argument list.  The lengths that
    [send] announces keep apart what the arguments hold, spaces and line
    ends included. *)
Theorem send_request_determines_arguments (fuel1 fuel2 : nat)
        (texts1 texts2 : list str) (self : Client) :
  Forall (fun s => encode s <> None) texts1 ->
  Forall (fun s => encode s <> None) texts2 ->
  sent (w (snd (send fuel1 (map PyStr texts1) self)))
  = sent (w (snd (send fuel2 (map PyStr texts2) self))) ->
  texts1 = texts2.
Proof.
  intros H1 H2.
  destruct (send_text_encodable texts1 H1) as [d1 E1].
  destruct (send_text_encodable texts2 H2) as [d2 E2].
  unfold send, bind. rewrite !resp_args_str. cbn [or_raise ret].
  rewrite !length_map.
  rewrite (request_effect fuel1 _ d1 self E1).
  rewrite (request_effect fuel2 _ d2 self E2).
  cbn [snd w sent]. intros H. do 2 apply app_inv_head in H. subst d2.
  pose proof (encode_inj _ _ _ E1 E2) as Htext.
  change (lit "*") with [42] in Htext. unfold crlf in Htext at 1 3.
  cbn [app] in Htext. injection Htext as Htext.
  apply split_at_first in Htext as [_ Htext]; [|apply int_str_no_CR..].
  injection Htext as Htext. now apply joined_inj.
Qed.

(** Two calls with the same arguments, of which one holds a space and a
    line end. *)
Lemma send_request_determines_arguments_witness :
  [lit "SET"; lit "a b" ++ crlf; lit "c"]
  = [lit "SET"; lit "a b" ++ crlf; lit "c"].
Proof.
  apply (send_request_determines_arguments 8 9
           [lit "SET"; lit "a b" ++ crlf; lit "c"]
           [lit "SET"; lit "a b" ++ crlf; lit "c"]
           (connect [blit "+OK" ++ [CR; LF]])).
  - repeat constructor; discriminate.
  - repeat constructor; discriminate.
  - reflexivity.
Defined.

(** X10.  An [int] among the arguments of [send] has no [len]: the call
    raises [TypeError] before anything is written or read, and the
    client is as it was.  ([set] takes the [int] that [main] gives it;
    [send] would not.) *)
Theorem send_int_argument_raises (fuel : nat) (args : list object)
        (z : Z) (self : Client) :
  In (PyInt z) args ->
  send fuel args self = (Raise TypeError, self).
Proof.
  intros Hin. unfold send, bind.
  assert (Hnone : resp_args args = None).
  { induction args as [|arg args IH]; [destruct Hin|].
    cbn [resp_args]. destruct Hin as [-> | Hin].
    - reflexivity.
    - rewrite (IH Hin). now destruct (bulk_arg arg). }
  now rewrite Hnone.
Qed.

(** [send("SET", "first", 1)]. *)
Lemma send_int_argument_raises_witness :
  send 8 [PyStr (lit "SET"); PyStr (lit "first"); PyInt 1]
    (connect [blit "+OK" ++ [CR; LF]])
  = (Raise TypeError, connect [blit "+OK" ++ [CR; LF]]).
Proof.
  apply (send_int_argument_raises 8
           [PyStr (lit "SET"); PyStr (lit "first"); PyInt 1] 1
           (connect [blit "+OK" ++ [CR; LF]])).
  simpl. tauto.
Defined.

(** X11.  A request is written whole or not at all: a lone surrogate
    in a [str] key or argument makes [get], [set], [incr] and [send]
    raise [UnicodeEncodeError] before a byte is written, and the client
    is as it was. *)
Theorem unencodable_request_is_not_written (fuel : nat) (key : str)
        (c : Z) (val : object) (before after : list str) (self : Client) :
  In c key -> is_surrogate c = true ->
  get fuel (PyStr key) self = (Raise UnicodeEncodeError, self)
  /\ set fuel (PyStr key) val self = (Raise UnicodeEncodeError, self)
  /\ set fuel val (PyStr key) self = (Raise UnicodeEncodeError, self)
  /\ incr fuel (PyStr key) self = (Raise UnicodeEncodeError, self)
  /\ send fuel (map PyStr (before ++ key :: after)) self
     = (Raise UnicodeEncodeError, self).
Proof.
  intros Hin Hc. apply surrogate_None in Hc.
  assert (Hnone : forall text, In c text -> encode text = None)
    by (intros text Ht; exact (encode_None_in text c Ht Hc)).
  unfold get, set, incr, send, bind. rewrite resp_args_str.
  cbn [or_raise ret format].
  repeat split; apply request_unencodable, Hnone;
    repeat (apply in_or_app; first [left; exact Hin | right]);
    try exact Hin.
  apply in_flat_map. exists key. split.
  - apply in_or_app. right. now left.
  - repeat (apply in_or_app; first [left; exact Hin | right]).
Qed.

(** The key [a] followed by the lone surrogate U+D800. *)
Lemma unencodable_request_is_not_written_witness :
  let self := connect [blit "+OK" ++ [CR; LF]] in
  let key := [97; 0xD800] in
  get 8 (PyStr key) self = (Raise UnicodeEncodeError, self)
  /\ set 8 (PyStr key) (PyInt 1) self = (Raise UnicodeEncodeError, self)
  /\ set 8 (PyInt 1) (PyStr key) self = (Raise UnicodeEncodeError, self)
  /\ incr 8 (PyStr key) self = (Raise UnicodeEncodeError, self)
  /\ send 8 (map PyStr ([lit "GET"] ++ key :: [])) self
     = (Raise UnicodeEncodeError, self).
Proof.
  apply (unencodable_request_is_not_written 8 [97; 0xD800] 0xD800 (PyInt 1)
           [lit "GET"] [] (connect [blit "+OK" ++ [CR; LF]])).
  - simpl. tauto.
  - reflexivity.
Defined.

(** X12.  [get] does not escape its key: a key that holds a line end
    and a second command puts on the wire, in one call, the bytes that
    two calls of [get] put there one after the other. *)
Theorem get_key_is_not_escaped (fuel fuel1 fuel2 : nat) (k1 k2 : str)
        (b1 b2 : bytes) (self : Client) :
  encode k1 = Some b1 -> encode k2 = Some b2 ->
  sent (w (snd (get fuel (PyStr (k1 ++ crlf ++ lit "GET " ++ k2)) self)))
  = sent (w (snd (get fuel2 (PyStr k2) (snd (get fuel1 (PyStr k1) self))))).
Proof.
  intros E1 E2. unfold get. cbn [format].
  assert (Hone : forall k b, encode k = Some b ->
                   encode (lit "GET " ++ k ++ crlf)
                   = Some (blit "GET " ++ b ++ [CR; LF])).
  { intros k b E. repeat (apply encode_app; [reflexivity || exact E|]).
    reflexivity. }
  rewrite (request_effect fuel1 _ _ self (Hone k1 b1 E1)).
  rewrite (request_effect fuel2 _ _ _ (Hone k2 b2 E2)).
  rewrite (request_effect fuel _
             (blit "GET " ++ (b1 ++ [CR; LF] ++ blit "GET " ++ b2) ++ [CR; LF])
             self).
  - cbn [snd w sent pending app]. rewrite <- !app_assoc. reflexivity.
  - apply encode_app; [reflexivity|]. apply encode_app; [|reflexivity].
    repeat (apply encode_app; [reflexivity || exact E1 || exact E2|]).
    exact E2.
Qed.

(** The key [a\r\nGET b] against the keys [a] and [b]. *)
Lemma get_key_is_not_escaped_witness :
  sent (w (snd (get 8 (PyStr (lit "a" ++ crlf ++ lit "GET " ++ lit "b"))
                  (connect [blit "$-1" ++ [CR; LF]]))))
  = sent (w (snd (get 8 (PyStr (lit "b"))
                    (snd (get 8 (PyStr (lit "a"))
                            (connect [blit "$-1" ++ [CR; LF]])))))).
Proof.
  apply (get_key_is_not_escaped 8 8 8 (lit "a") (lit "b") (blit "a")
           (blit "b") (connect [blit "$-1" ++ [CR; LF]])); reflexivity.
Defined.

(** X13.  [set] does not delimit its arguments: a space moved from the
    key into the value gives the same call, with the same request and
    the same outcome, so the server cannot tell [set("a b", "c")] from
    [set("a", "b c")]. *)
Theorem set_arguments_are_not_delimited (fuel : nat) (key mid val : str)
        (self : Client) :
  set fuel (PyStr (key ++ lit " " ++ mid)) (PyStr val) self
  = set fuel (PyStr key) (PyStr (mid ++ lit " " ++ val)) self.
Proof.
  unfold set. cbn [format]. rewrite <- !app_assoc. reflexivity.
Qed.

(** X14.  A command either raises before it writes ([UnicodeEncodeError],
    or [TypeError] in [send]) and then leaves the client as it was, or
    puts its request, which is not empty, behind everything written
    before, leaves nothing pending, and ends as [_reply] ends on the
    stream as it stood: bytes once written are never taken back, changed
    or held. *)
Theorem commands_only_append (fuel : nat) (key val : object)
        (args : list object) (self : Client) :
  let step (errors : list exn) (command : M object) :=
    (exists e, In e errors /\ command self = (Raise e, self))
    \/ (exists data,
          data <> []
          /\ command self
             = (fst (_reply fuel self),
                {| r := r (snd (_reply fuel self));
                   w := {| pending := [];
                           sent := sent (w self) ++ pending (w self)
                                   ++ data |} |})) in
  step [UnicodeEncodeError] (get fuel key)
  /\ step [UnicodeEncodeError] (set fuel key val)
  /\ step [UnicodeEncodeError] (incr fuel key)
  /\ step [TypeError; UnicodeEncodeError] (send fuel args).
Proof.
  cbv zeta.
  assert (Hrequest : forall c t errors,
             0 <= c < 128 ->
             In UnicodeEncodeError errors ->
             (exists e, In e errors
                        /\ request fuel (c :: t) self = (Raise e, self))
             \/ (exists data,
                   data <> []
                   /\ request fuel (c :: t) self
                      = (fst (_reply fuel self),
                         {| r := r (snd (_reply fuel self));
                            w := {| pending := [];
                                    sent := sent (w self) ++ pending (w self)
                                            ++ data |} |}))).
  { intros c t errors Hc Herr. destruct (encode (c :: t)) as [data|] eqn:E.
    - right. exists data. rewrite (request_effect fuel _ data self E).
      destruct (encode_head c t data Hc E) as [d ->].
      split; [discriminate | reflexivity].
    - left. exists UnicodeEncodeError. split; [exact Herr|].
      apply (request_unencodable fuel _ self E). }
  unfold get, set, incr, send, bind.
  repeat split.
  - change (lit "GET ") with ([71] ++ [69; 84; 32]).
    rewrite <- app_assoc. apply Hrequest; [lia | now left].
  - change (lit "SET ") with ([83] ++ [69; 84; 32]).
    rewrite <- app_assoc. apply Hrequest; [lia | now left].
  - change (lit "INCR ") with ([73] ++ [78; 67; 82; 32]).
    rewrite <- app_assoc. apply Hrequest; [lia | now left].
  - destruct (resp_args args) as [joined|]; cbn [or_raise ret raise].
    + change (lit "*") with [42]. apply Hrequest; [lia | right; now left].
    + left. exists TypeError. split; [now left | reflexivity].
Qed.

(** ** The script *)

Section Script.

(** One statement [print(await command)] of [main], for a command that
    comes down to a request with an encoding. *)
Lemma print_await_request (fuel : nat) (text : str) (data : bytes)
      (client : Client) (stdout : str) :
  encode text = Some data ->
  print_await (request fuel text) (Return tt, client, stdout)
  = let after := {| r := r (snd (_reply fuel client));
                    w := {| pending := [];
                            sent := sent (w client) ++ pending (w client)
                                    ++ data |} |} in
    match fst (_reply fuel client) with
    | Return v => (Return tt, after, print v stdout)
    | Raise e => (Raise e, after, stdout)
    | OutOfFuel => (OutOfFuel, after, stdout)
    end.
Proof.
  intros E. unfold print_await. rewrite (request_effect fuel text data client E).
  cbv zeta. destruct (fst (_reply fuel client)); reflexivity.
Qed.

(** The same when the reply at hand is a whole frame. *)
Lemma print_await_frame (fuel : nat) (text : str) (data frame rest : bytes)
      (client : Client) (stdout : str) :
  encode text = Some data ->
  resp_frame frame ->
  concat (r client) = frame ++ rest ->
  (length frame <= fuel)%nat ->
  exists rd',
    concat rd' = rest
    /\ print_await (request fuel text) (Return tt, client, stdout)
       = let after := {| r := rd';
                         w := {| pending := [];
                                 sent := sent (w client) ++ pending (w client)
                                         ++ data |} |} in
         match fst (_reply (length frame) (connect [frame])) with
         | Return v => (Return tt, after, print v stdout)
         | Raise e => (Raise e, after, stdout)
         | OutOfFuel => (OutOfFuel, after, stdout)
         end.
Proof.
  intros E Hframe Hcat Hfuel.
  destruct (reply_frame frame Hframe) as (res & _ & Hall).
  destruct (Hall rest client fuel Hcat Hfuel) as (rd' & Hrd' & Hreply).
  destruct (Hall [] (connect [frame]) (length frame)) as (rd'' & _ & Halone);
    [reflexivity | lia |].
  exists rd'. split; [exact Hrd'|].
  rewrite (print_await_request fuel text data client stdout E).
  rewrite Hreply, Halone. reflexivity.
Qed.

(** The [send] call of [main] is a request with a text of its own. *)
Lemma main_send_request (fuel : nat) :
  send fuel [PyStr (lit "set"); PyStr (lit "third");
             PyStr (lit "way after first")]
  = request fuel
      (lit "*3" ++ crlf ++ lit "$3" ++ crlf ++ lit "set" ++ crlf
       ++ lit "$5" ++ crlf ++ lit "third" ++ crlf
       ++ lit "$15" ++ crlf ++ lit "way after first" ++ crlf).
Proof. reflexivity. Qed.

End Script.

(** X15.  Whatever the server sends and however long [main] runs, the
    bytes it has put on the wire are its four requests in order, cut
    after one of them: the inline [SET first 1], the multi-bulk
    [set third "way after first"], the inline [GET first] and the inline
    [INCR first].  It has written at least the first, all four when it
    ends without an exception, and nothing is left pending. *)
Theorem main_writes_its_requests_in_order (fuel : nat)
        (server : StreamReader) :
  match main fuel server with
  | (res, client, stdout) =>
      exists k,
        (1 <= k <= 4)%nat
        /\ w client = {| pending := [];
                         sent := concat (firstn k main_requests) |}
        /\ (res = Return tt -> k = 4%nat)
  end.
Proof.
  unfold main. cbv zeta. rewrite main_send_request.
  unfold set, get, incr. cbn [format].
  rewrite (print_await_request fuel _ (blit "SET first 1" ++ [CR; LF]))
    by reflexivity.
  cbv zeta. destruct (fst (_reply fuel (connect server)));
    [|exists 1%nat; repeat split; (lia || discriminate)..].
  rewrite (print_await_request fuel _ (nth 1 main_requests [])) by reflexivity.
  cbv zeta.
  match goal with |- context [fst (_reply fuel ?c)] =>
    destruct (fst (_reply fuel c)) end;
    [|exists 2%nat; repeat split; (lia || discriminate)..].
  rewrite (print_await_request fuel _ (blit "GET first" ++ [CR; LF]))
    by reflexivity.
  cbv zeta.
  match goal with |- context [fst (_reply fuel ?c)] =>
    destruct (fst (_reply fuel c)) end;
    [|exists 3%nat; repeat split; (lia || discriminate)..].
  rewrite (print_await_request fuel _ (blit "INCR first" ++ [CR; LF]))
    by reflexivity.
  cbv zeta.
  match goal with |- context [fst (_reply fuel ?c)] =>
    destruct (fst (_reply fuel c)) end;
    exists 4%nat; repeat split; lia.
Qed.

(** X16.  When the server answers the four requests of [main] with four
    replies that decode to values, in whatever fragments, [main] ends
    without an exception, has written its four requests, has read the
    four replies and nothing behind them, and has printed its banner and
    then the four values, one per line, in the order of the replies. *)
Theorem main_prints_the_four_replies (fuel : nat) (server : StreamReader)
        (f1 f2 f3 f4 rest : bytes) (v1 v2 v3 v4 : object) :
  resp_frame f1 -> resp_frame f2 -> resp_frame f3 -> resp_frame f4 ->
  fst (_reply (length f1) (connect [f1])) = Return v1 ->
  fst (_reply (length f2) (connect [f2])) = Return v2 ->
  fst (_reply (length f3) (connect [f3])) = Return v3 ->
  fst (_reply (length f4) (connect [f4])) = Return v4 ->
  concat server = f1 ++ f2 ++ f3 ++ f4 ++ rest ->
  (length f1 <= fuel)%nat -> (length f2 <= fuel)%nat ->
  (length f3 <= fuel)%nat -> (length f4 <= fuel)%nat ->
  exists rd',
    concat rd' = rest
    /\ main fuel server
       = (Return tt,
          {| r := rd';
             w := {| pending := []; sent := concat main_requests |} |},
          print v4 (print v3 (print v2 (print v1
            (print (PyStr (lit "Asyncio Python Redis Client")) []))))).
Proof.
  intros F1 F2 F3 F4 V1 V2 V3 V4 Hcat L1 L2 L3 L4.
  unfold main. cbv zeta. rewrite main_send_request.
  unfold set, get, incr. cbn [format].
  destruct (print_await_frame fuel
              (lit "SET " ++ lit "first" ++ lit " " ++ int_str 1 ++ crlf)
              (blit "SET first 1" ++ [CR; LF]) f1 (f2 ++ f3 ++ f4 ++ rest)
              (connect server)
              (print (PyStr (lit "Asyncio Python Redis Client")) []))
    as (rd1 & Hrd1 & ->); [reflexivity | assumption.. |].
  rewrite V1. cbv zeta.
  match goal with
  | |- context [print_await (request fuel ?t) (Return tt, ?c, ?o)] =>
      destruct (print_await_frame fuel t (nth 1 main_requests []) f2
                  (f3 ++ f4 ++ rest) c o)
        as (rd2 & Hrd2 & ->); [reflexivity | assumption.. |]
  end.
  rewrite V2. cbv zeta.
  match goal with
  | |- context [print_await (request fuel ?t) (Return tt, ?c, ?o)] =>
      destruct (print_await_frame fuel t (blit "GET first" ++ [CR; LF]) f3
                  (f4 ++ rest) c o)
        as (rd3 & Hrd3 & ->); [reflexivity | assumption.. |]
  end.
  rewrite V3. cbv zeta.
  match goal with
  | |- context [print_await (request fuel ?t) (Return tt, ?c, ?o)] =>
      destruct (print_await_frame fuel t (blit "INCR first" ++ [CR; LF]) f4
                  rest c o)
        as (rd4 & Hrd4 & ->); [reflexivity | assumption.. |]
  end.
  rewrite V4. cbv zeta.
  exists rd4. split; [exact Hrd4 | reflexivity].
Qed.

(** The answers of a server that held no key before: [+OK], [+OK],
    the bulk string [1] and the integer 2, in three fragments that cut
    across the replies. *)
Lemma main_prints_the_four_replies_witness :
  exists rd',
    concat rd' = []
    /\ main 8 [blit "+OK" ++ [CR; LF] ++ blit "+O";
               blit "K" ++ [CR; LF] ++ blit "$1" ++ [CR; LF] ++ blit "1";
               [CR; LF] ++ blit ":2" ++ [CR; LF]]
       = (Return tt,
          {| r := rd';
             w := {| pending := []; sent := concat main_requests |} |},
          print (PyInt 2) (print (PyStr (lit "1"))
            (print (PyStr (lit "OK" ++ [13])) (print (PyStr (lit "OK" ++ [13]))
              (print (PyStr (lit "Asyncio Python Redis Client")) []))))).
Proof.
  apply (main_prints_the_four_replies 8
           [blit "+OK" ++ [CR; LF] ++ blit "+O";
            blit "K" ++ [CR; LF] ++ blit "$1" ++ [CR; LF] ++ blit "1";
            [CR; LF] ++ blit ":2" ++ [CR; LF]]
           (blit "+OK" ++ [CR; LF]) (blit "+OK" ++ [CR; LF])
           (blit "$1" ++ [CR; LF] ++ blit "1" ++ [CR; LF])
           (blit ":2" ++ [CR; LF]) []).
  - apply (frame_line "+"%byte (blit "OK" ++ [CR]));
      simpl; intuition discriminate.
  - apply (frame_line "+"%byte (blit "OK" ++ [CR]));
      simpl; intuition discriminate.
  - apply (frame_bulk 1 (blit "1" ++ [CR; LF])); [lia | reflexivity].
  - apply (frame_line ":"%byte (blit "2" ++ [CR]));
      simpl; intuition discriminate.
  - reflexivity.
  - reflexivity.
  - reflexivity.
  - reflexivity.
  - reflexivity.
  - simpl; lia.
  - simpl; lia.
  - simpl; lia.
  - simpl; lia.
Defined.

(** X17.  [main] catches nothing: when the first reply makes [_reply]
    raise, as an error reply does, [main] ends with that exception,
    having written only its first request and printed only its banner;
    the three later commands are never sent. *)
Theorem main_stops_at_the_first_exception (fuel : nat)
        (server : StreamReader) (f1 rest : bytes) (e : exn) :
  resp_frame f1 ->
  fst (_reply (length f1) (connect [f1])) = Raise e ->
  concat server = f1 ++ rest ->
  (length f1 <= fuel)%nat ->
  exists rd',
    concat rd' = rest
    /\ main fuel server
       = (Raise e,
          {| r := rd';
             w := {| pending := [];
                     sent := blit "SET first 1" ++ [CR; LF] |} |},
          print (PyStr (lit "Asyncio Python Redis Client")) []).
Proof.
  intros F1 V1 Hcat L1.
  unfold main. cbv zeta. rewrite main_send_request.
  unfold set, get, incr. cbn [format].
  destruct (print_await_frame fuel
              (lit "SET " ++ lit "first" ++ lit " " ++ int_str 1 ++ crlf)
              (blit "SET first 1" ++ [CR; LF]) f1 rest
              (connect server)
              (print (PyStr (lit "Asyncio Python Redis Client")) []))
    as (rd1 & Hrd1 & ->); [reflexivity | assumption.. |].
  rewrite V1. cbv zeta.
  exists rd1. split; [exact Hrd1 | reflexivity].
Qed.

(** A server that answers the first request with an error reply. *)
Lemma main_stops_at_the_first_exception_witness :
  exists rd',
    concat rd' = blit "+OK" ++ [CR; LF]
    /\ main 16 [blit "-ERR"; blit " no" ++ [CR; LF] ++ blit "+OK" ++ [CR; LF]]
       = (Raise (Exception (lit "ERR no" ++ [13])),
          {| r := rd';
             w := {| pending := [];
                     sent := blit "SET first 1" ++ [CR; LF] |} |},
          print (PyStr (lit "Asyncio Python Redis Client")) []).
Proof.
  apply (main_stops_at_the_first_exception 16
           [blit "-ERR"; blit " no" ++ [CR; LF] ++ blit "+OK" ++ [CR; LF]]
           (blit "-ERR no" ++ [CR; LF]) (blit "+OK" ++ [CR; LF])).
  - apply (frame_line "-"%byte (blit "ERR no" ++ [CR]));
      simpl; intuition discriminate.
  - reflexivity.
  - reflexivity.
  - simpl; lia.
Defined.
